(** * flood-monitor-bridge: the record normalizer, the cursor store and the
      two polling loops, embedded from [src/main.py] and
      [src/image_poller.py].

    Layout:
    - [Py]: the Python values and built-ins the code relies on
      ([float], [int], [re.search(r'\d+', s)], [str.split]), with their
      exceptions;
    - [Normalizer]: [_get_field], [_parse_distance], [_parse_timestamp],
      [clean_sensor_data];
    - [Bridge]: cursor recovery and the telemetry polling loop of [main];
    - [Media]: [_poll_once] of the image poller and its seen-set;
    - [BlobTime]: the timestamp of a blob, from its name or its metadata;
    - [Config]: [load_sensor_config];
    - [Backfill]: [backfill_data] of [src/backfill.py];
    - the theorems, one block per property of the specification, then
      further properties of the code. *)

From Stdlib Require Import ZArith List String Ascii Bool Lia DecimalString.
From Stdlib Require Import Floats.SpecFloat.
From stdpp Require Import base option gmap strings list sorting.

Local Open Scope string_scope.
Local Open Scope Z_scope.

(* ===================================================================== *)
(** * Python values and built-ins *)
(* ===================================================================== *)

Module Py.

(** The exceptions the code distinguishes in its [except] clauses. *)
Inductive exn :=
| ValueError | TypeError | OverflowError | OSError
| AttributeError | IndexError | KeyError | OtherError.

(** A call either returns or raises. *)
Inductive result (A : Type) :=
| Ok (a : A)
| Raise (e : exn).
Arguments Ok {A} a.
Arguments Raise {A} e.

(** Sequencing: the first raise aborts what follows ([x ← r; k]). *)
#[export] Instance result_ret : MRet result := fun A a => Ok a.
#[export] Instance result_bind : MBind result := fun A B k r =>
  match r with
  | Ok a => k a
  | Raise e => Raise e
  end.


(** ** Floats: IEEE 754 binary64, as the interpreter's [float] *)

Definition prec : Z := 53.
Definition emax : Z := 1024.

Definition float := spec_float.

Definition fzero : float := S754_zero false.

(** [float(z)] on an integer: rounded to nearest even; an integer beyond the
    finite range raises [OverflowError]. *)
Definition float_of_Z (z : Z) : result float :=
  match binary_normalize prec emax z 0 false with
  | S754_infinity _ => Raise OverflowError
  | f => Ok f
  end.

(** A float literal with an integral value inside the finite range. *)
Definition float_lit (z : Z) : float := binary_normalize prec emax z 0 false.

(** [int(f)]: truncation toward zero; [nan] raises [ValueError], an
    infinity raises [OverflowError]. *)
Definition int_of_float (f : float) : result Z :=
  match f with
  | S754_zero _ => Ok 0
  | S754_nan => Raise ValueError
  | S754_infinity _ => Raise OverflowError
  | S754_finite s m e =>
      let a := match e with
               | Zneg k => Z.shiftr (Zpos m) (Zpos k)
               | _ => Z.shiftl (Zpos m) e
               end in
      Ok (if s then - a else a)
  end.

Definition fdiv (x y : float) : float := SFdiv prec emax x y.
Definition fgt (x y : float) : bool := SFltb y x.

(** ** Characters *)

Definition is_digit (c : ascii) : bool :=
  let n := N_of_ascii c in ((48 <=? n) && (n <=? 57))%N.

Definition digit_val (c : ascii) : Z := Z.of_N (N_of_ascii c) - 48.

(** The six ASCII blanks: tab, line feed, vertical tab, form feed,
    carriage return, space. *)
Definition is_space (c : ascii) : bool :=
  let n := N_of_ascii c in (((9 <=? n) && (n <=? 13)) || (n =? 32))%N.

Definition lower (c : ascii) : ascii :=
  let n := N_of_ascii c in
  if ((65 <=? n) && (n <=? 90))%N then ascii_of_N (n + 32) else c.

Fixpoint lower_str (s : string) : string :=
  match s with
  | EmptyString => EmptyString
  | String c r => String (lower c) (lower_str r)
  end.

(** ** Digit runs *)

(** The longest prefix of decimal digits, and what follows it. *)
Fixpoint span_digits (s : string) : string * string :=
  match s with
  | String c r =>
      if is_digit c then
        let '(d, rest) := span_digits r in (String c d, rest)
      else (EmptyString, s)
  | EmptyString => (EmptyString, EmptyString)
  end.

(** [re.search(r'\d+', s)]: the leftmost, longest run of digits, [None]
    when [s] holds no digit. *)
Fixpoint search_digits (s : string) : option string :=
  match s with
  | EmptyString => None
  | String c r =>
      if is_digit c then Some (fst (span_digits s)) else search_digits r
  end.

(** The value of a string of decimal digits, most significant first. *)
Fixpoint digits_value_from (acc : Z) (s : string) : Z :=
  match s with
  | EmptyString => acc
  | String c r => digits_value_from (10 * acc + digit_val c) r
  end.

(** [int(d)] on a non-empty run of digits. *)
Definition int_of_digits (d : string) : Z := digits_value_from 0 d.

(** ** [float(s)] on a string *)

Fixpoint drop_spaces (s : string) : string :=
  match s with
  | String c r => if is_space c then drop_spaces r else s
  | EmptyString => EmptyString
  end.

Fixpoint rev_str (acc s : string) : string :=
  match s with
  | EmptyString => acc
  | String c r => rev_str (String c acc) r
  end.

(** [s.strip()] *)
Definition strip (s : string) : string :=
  rev_str EmptyString (drop_spaces (rev_str EmptyString (drop_spaces s))).

(** Underscores may only sit between two digits; they are removed. [prev]
    is the previous character, if any. *)
Fixpoint drop_underscores (prev : option ascii) (s : string) : option string :=
  match s with
  | EmptyString =>
      match prev with
      | Some "_"%char => None
      | _ => Some EmptyString
      end
  | String c r =>
      if Ascii.eqb c "_" then
        match prev with
        | Some p => if is_digit p then drop_underscores (Some c) r else None
        | None => None
        end
      else
        match prev with
        | Some "_"%char =>
            if is_digit c then String c <$> drop_underscores (Some c) r
            else None
        | _ => String c <$> drop_underscores (Some c) r
        end
  end.

(** An optional sign: [true] for a minus. *)
Definition take_sign (s : string) : bool * string :=
  match s with
  | String "-" r => (true, r)
  | String "+" r => (false, r)
  | _ => (false, s)
  end.

(** The exponent part [e[+-]ddd] when it is well formed and ends the
    string; a string without exponent has exponent 0. *)
Definition parse_exponent (s : string) : option Z :=
  match s with
  | EmptyString => Some 0
  | String c r =>
      if Ascii.eqb (lower c) "e" then
        let '(neg, r1) := take_sign r in
        match span_digits r1 with
        | (String d ds, EmptyString) =>
            let v := int_of_digits (String d ds) in
            Some (if neg then - v else v)
        | _ => None
        end
      else None
  end.

(** The decimal number [m * 10^e], rounded to the nearest binary64 (ties
    to even); a value above the finite range becomes an infinity. *)
Definition round_decimal (neg : bool) (m e : Z) : float :=
  match m with
  | Zpos p =>
      match e with
      | Zneg k =>
          SFdiv prec emax (S754_finite neg p 0)
                (S754_finite false (Pos.pow 10 k) 0)
      | _ => binary_normalize prec emax
               (if neg then - (Zpos p * 10 ^ e) else Zpos p * 10 ^ e) 0 neg
      end
  | _ => S754_zero neg
  end.

(** The unsigned part of a float literal: [inf], [infinity], [nan] in any
    case, or digits with an optional point and exponent. *)
Definition parse_abs_float (neg : bool) (s : string) : option float :=
  let l := lower_str s in
  if String.eqb l "inf" || String.eqb l "infinity" then Some (S754_infinity neg)
  else if String.eqb l "nan" then Some S754_nan
  else
    let '(ip, r1) := span_digits s in
    let '(fp, r2) :=
      match r1 with
      | String "." r => span_digits r
      | _ => (EmptyString, r1)
      end in
    match ip +:+ fp with
    | EmptyString => None
    | ds =>
        ex ← parse_exponent r2;
        Some (round_decimal neg (int_of_digits ds)
                (ex - Z.of_nat (String.length fp)))
    end.

(** [float(s)] for a string [s]; [ValueError] when [s] is not a float
    literal. *)
Definition float_of_string (s : string) : result float :=
  match drop_underscores None (strip s) with
  | None => Raise ValueError
  | Some t =>
      let '(neg, r) := take_sign t in
      match parse_abs_float neg r with
      | Some f => Ok f
      | None => Raise ValueError
      end
  end.

(** ** Values *)

(** The values a record field can hold. A list or a nested mapping is
    carried by its string form, which is all the code can observe of it
    ([isinstance] tests fail, [float] raises [TypeError], [str] yields the
    form). Strings are sequences of one-byte characters: the model is
    about ASCII text, where the class [\d] is exactly the digits 0-9 and
    white space is the six ASCII blanks. *)
Inductive value :=
| VNone
| VBool (b : bool)
| VInt (z : Z)
| VFloat (f : float)
| VStr (s : string)
| VOther (form : string).

(** [isinstance(v, (int, float))]; [bool] is a subclass of [int]. *)
Definition is_number (v : value) : bool :=
  match v with
  | VBool _ | VInt _ | VFloat _ => true
  | _ => false
  end.

(** [float(v)] *)
Definition py_float (v : value) : result float :=
  match v with
  | VNone => Raise TypeError
  | VBool b => Ok (if b then float_lit 1 else fzero)
  | VInt z => float_of_Z z
  | VFloat f => Ok f
  | VStr s => float_of_string s
  | VOther _ => Raise TypeError
  end.

(** [int(v)] on a value for which [isinstance(v, (int, float))] holds. *)
Definition py_int (v : value) : result Z :=
  match v with
  | VBool b => Ok (if b then 1 else 0)
  | VInt z => Ok z
  | VFloat f => int_of_float f
  | _ => Raise TypeError
  end.

(** [str(z)] on an integer: its decimal form. *)
Definition str_of_Z (z : Z) : string := NilZero.string_of_int (Z.to_int z).

(** ** [str.split] on a one-character separator *)

Fixpoint split_on (sep : ascii) (cur : string) (s : string) : list string :=
  match s with
  | EmptyString => [rev_str EmptyString cur]
  | String c r =>
      if Ascii.eqb c sep then rev_str EmptyString cur :: split_on sep EmptyString r
      else split_on sep (String c cur) r
  end.

Definition split (sep : ascii) (s : string) : list string :=
  split_on sep EmptyString s.

Fixpoint contains_char (c : ascii) (s : string) : bool :=
  match s with
  | EmptyString => false
  | String d r => Ascii.eqb c d || contains_char c r
  end.

Fixpoint drop_char (c : ascii) (s : string) : string :=
  match s with
  | String d r => if Ascii.eqb c d then drop_char c r else s
  | EmptyString => EmptyString
  end.

(** [s.rstrip(c)] for a one-character [c] *)
Definition rstrip (c : ascii) (s : string) : string :=
  rev_str EmptyString (drop_char c (rev_str EmptyString s)).

(** [s.endswith(c)] for a one-character [c] *)
Definition ends_with (c : ascii) (s : string) : bool :=
  match rev_str EmptyString s with
  | String d _ => Ascii.eqb c d
  | EmptyString => false
  end.

End Py.

Import Py.

(* ===================================================================== *)
(** * The record normalizer ([src/main.py], lines 68-218) *)
(* ===================================================================== *)

Module Normalizer.

(** An aware UTC [datetime]: microseconds since the epoch. *)
Definition datetime := Z.

(** The two clock readings one normalization takes: [time.time()] and
    [datetime.datetime.now(datetime.timezone.utc)]. *)
Record Clock := {
  time_time : float;
  utc_now : datetime;
}.

(** The library calls whose results the code only passes on:
    [datetime.strptime(s, pattern)] (read as a UTC instant, which is what
    [.replace(tzinfo=utc)] makes of it), [datetime.fromtimestamp(ts, utc)]
    and the [repr] of a float. *)
Class Runtime := {
  strptime : string -> string -> result datetime;
  fromtimestamp : float -> result datetime;
  float_repr : float -> string;
}.

(** A source record as the loops hand it over: a mapping of field names to
    values, or anything else. *)
Inductive node :=
| NDict (d : gmap string value)
| NLeaf (v : value).

(** Per-sensor configuration: the field-mapping table and the two parsing
    modes, each optional. *)
Record SensorCfg := {
  cfg_fields : gmap string string;
  cfg_distance_encoding : option string;
  cfg_timestamp_format : option string;
}.

(** The canonical measurement point ([Point("sensor_reading")]). *)
Record Point := {
  measurement : string;
  sensor_id : string;
  dist_cm : Z;
  bat_volt : float;
  solar_volt : float;
  fb_key : string;
  time : datetime;
}.

Definition _DISTANCE_FALLBACK_FIELDS : list string :=
  ["dist_cm"; "distance_cm"; "ultrasound"; "ultrasound_cm";
   "level"; "level_cm"; "distance"; "water_level";
   "distance_from_sensor"].
Definition _BATTERY_FALLBACK_FIELDS : list string :=
  ["bat_volt"; "battery_voltage"; "battery"; "voltage"].
Definition _SOLAR_FALLBACK_FIELDS : list string :=
  ["solar_volt"; "solar_voltage"; "solar"].

(** [data.get(name)]: [None] for a missing name; a record that is not a
    mapping has no [get]. *)
Definition data_get (data : node) (name : string) : result value :=
  match data with
  | NDict d => Ok (default VNone (d !! name))
  | NLeaf _ => Raise AttributeError
  end.

(** [data.get(name, dflt)] *)
Definition data_get_default (data : node) (name : string) (dflt : value)
  : result value :=
  match data with
  | NDict d => Ok (default dflt (d !! name))
  | NLeaf _ => Raise AttributeError
  end.

(** The loop of [_get_field] over the fallback names. *)
Fixpoint first_non_null (data : node) (fallbacks : list string) : result value :=
  match fallbacks with
  | [] => Ok VNone
  | fb :: rest =>
      val ← data_get data fb;
      match val with
      | VNone => first_non_null data rest
      | _ => Ok val
      end
  end.

(** Truth value of an optional string: [None] and the empty string are
    false. *)
Definition truthy (s : option string) : bool :=
  match s with
  | Some (String _ _) => true
  | _ => false
  end.

Definition _get_field (data : node) (field_name : option string)
    (fallbacks : list string) : result value :=
  match field_name with
  | Some (String c r) => data_get data (String c r)
  | _ => first_non_null data fallbacks
  end.

Section WithRuntime.
Context {rt : Runtime}.

(** [str(v)] *)
Definition py_str (v : value) : string :=
  match v with
  | VNone => "None"
  | VBool b => if b then "True" else "False"
  | VInt z => str_of_Z z
  | VFloat f => float_repr f
  | VStr s => s
  | VOther form => form
  end.

(** [int(match.group()) if match else 0] after [re.search(r'\d+', s)] *)
Definition digits_or_zero (s : string) : Z :=
  match search_digits s with
  | Some d => int_of_digits d
  | None => 0
  end.

Definition _parse_distance (raw_dist : value) (encoding : string) : result Z :=
  match raw_dist with
  | VNone => Ok 0
  | _ =>
      if String.eqb encoding "numeric" then
        match f ← py_float raw_dist; int_of_float f with
        | Raise ValueError | Raise TypeError => Ok 0
        | r => r
        end
      else if String.eqb encoding "string" then
        if is_number raw_dist then py_int raw_dist
        else Ok (digits_or_zero (py_str raw_dist))
      else
        if is_number raw_dist then py_int raw_dist
        else
          match raw_dist with
          | VStr s => Ok (digits_or_zero s)
          | _ => Ok 0
          end
  end.

Definition iso_patterns : list string :=
  ["%Y-%m-%d %H:%M:%S"; "%Y-%m-%dT%H:%M:%S";
   "%Y-%m-%d %H:%M:%S.%f"; "%Y-%m-%dT%H:%M:%S.%f";
   "%Y-%m-%dT%H:%M:%SZ"].

(** The loop over the ISO patterns: a [ValueError] moves on to the next
    pattern, the first success is returned, and [now] is returned when no
    pattern is left. *)
Fixpoint try_patterns (now : datetime) (ts_str : string) (patterns : list string)
  : result datetime :=
  match patterns with
  | [] => Ok now
  | pat :: rest =>
      match strptime ts_str pat with
      | Ok dt => Ok dt
      | Raise ValueError => try_patterns now ts_str rest
      | Raise e => Raise e
      end
  end.

(** Lines 159-164: the seconds value handed to [fromtimestamp]. *)
Definition epoch_seconds (fmt : string) (ts : float) : float :=
  if String.eqb fmt "epoch_ms" then fdiv ts (float_lit 1000)
  else if String.eqb fmt "epoch_auto" then
    if fgt ts (float_lit 100000000000) then fdiv ts (float_lit 1000) else ts
  else ts.

(** Lines 166-169: the conversion, with [now] in place of an [OSError]
    or [OverflowError]. *)
Definition fromtimestamp_or_now (now : datetime) (ts : float) : result datetime :=
  match fromtimestamp ts with
  | Raise OSError | Raise OverflowError => Ok now
  | r => r
  end.

Definition _parse_timestamp (now : datetime) (raw_ts : value) (fmt : string)
  : result datetime :=
  match raw_ts with
  | VNone => Ok now
  | _ =>
      if String.eqb fmt "iso" then
        match try_patterns now (strip (py_str raw_ts)) iso_patterns with
        | Ok dt => Ok dt
        | Raise _ => Ok now
        end
      else
        match py_float raw_ts with
        | Raise ValueError | Raise TypeError => Ok now
        | Raise e => Raise e
        | Ok ts => fromtimestamp_or_now now (epoch_seconds fmt ts)
        end
  end.

(** [float(raw) if raw is not None else 0.0] *)
Definition float_or_zero (raw : value) : result float :=
  match raw with
  | VNone => Ok fzero
  | _ => py_float raw
  end.

(** The body of the [try] block of [clean_sensor_data]. *)
Definition clean_sensor_data_body (clk : Clock) (key : string) (data : node)
    (sensor_cfg : option SensorCfg) : result Point :=
  let sensor_id :=
    if contains_char "/" key then nth 1 (split "/" key) "" else "unknown_sensor" in
  let fields_cfg := from_option cfg_fields ∅ sensor_cfg in
  let dist_field := fields_cfg !! "distance" in
  let bat_field := fields_cfg !! "battery" in
  let sol_field := fields_cfg !! "solar" in
  let ts_field := default "timestamp" (fields_cfg !! "timestamp") in
  let dist_encoding := default "auto" (sensor_cfg ≫= cfg_distance_encoding) in
  let ts_format := default "epoch_auto" (sensor_cfg ≫= cfg_timestamp_format) in
  raw_dist ← _get_field data dist_field _DISTANCE_FALLBACK_FIELDS;
  raw_bat ← _get_field data bat_field _BATTERY_FALLBACK_FIELDS;
  raw_sol ← _get_field data sol_field _SOLAR_FALLBACK_FIELDS;
  raw_ts ← data_get_default data ts_field (VFloat (time_time clk));
  dist_cm ← _parse_distance raw_dist dist_encoding;
  bat ← float_or_zero raw_bat;
  sol ← float_or_zero raw_sol;
  dt_obj ← _parse_timestamp (utc_now clk) raw_ts ts_format;
  Ok {| measurement := "sensor_reading";
        sensor_id := sensor_id;
        dist_cm := dist_cm;
        bat_volt := bat;
        solar_volt := sol;
        fb_key := List.last (split "/" key) "";
        time := dt_obj |}.

(** [clean_sensor_data]: the point, or [None] once the [except Exception]
    clause has logged the error. *)
Definition clean_sensor_data (clk : Clock) (key : string) (data : node)
    (sensor_cfg : option SensorCfg) : option Point :=
  match clean_sensor_data_body clk key data sensor_cfg with
  | Ok point => Some point
  | Raise _ => None
  end.

End WithRuntime.

End Normalizer.

Import Normalizer.

(* ===================================================================== *)
(** * Cursor recovery and the telemetry polling loop ([main], lines 319-452) *)
(* ===================================================================== *)

Module Bridge.

(** The two queries the loop sends to the source:
    [order_by_key().start_at(k).limit_to_first(n)] and
    [order_by_key().limit_to_last(n)]. *)
Inductive query :=
| StartAt (key : string) (limit : nat)
| LimitToLast (limit : nat).

(** What [query.get()] returns: a mapping from push keys to records, in the
    order the source lists them, or anything else ([None], a list, a
    scalar). *)
Inductive snapshot :=
| SDict (items : list (string * node))
| SOther.

(** The cursor map [cursors] and the content of the state file: sensor
    identifier to last key, [None] for a null cursor. *)
Abbreviation cursor_map := (gmap string (option string)).

(** The calls that leave the process, in the order they are made. *)
Inductive event :=
| SinkQuery (sensor : string)
| SourceGet (sensor : string) (q : query)
| SinkWrite (points : list Point) (acknowledged : bool)
| FileSave (content : cursor_map) (done : bool).

(** The outside world during a run: the source store, the sink, the file
    system, and the clock readings taken while the record under a given
    path is normalized. *)
Record World := {
  fb_get : string -> query -> result snapshot;
  influx_write : list Point -> result unit;
  influx_query : string -> result (list (list (option string)));
  file_write : cursor_map -> result unit;
  clock : string -> Clock;
}.

(** The state of [main] once the clients are connected. [state_file] is
    [None] while the file is missing or unreadable. *)
Record State := {
  cursors : cursor_map;
  state_file : option cursor_map;
  trace : list event;
}.

Definition log (ev : event) (st : State) : State :=
  {| cursors := cursors st; state_file := state_file st;
     trace := (trace st ++ [ev])%list |}.

(** [cursors[sensor] = v] *)
Definition set_cursor (sensor : string) (v : option string) (st : State) : State :=
  {| cursors := <[sensor := v]> (cursors st); state_file := state_file st;
     trace := trace st |}.

(** [sensor_configs.get(sensor)] on the configuration mapping, kept in its
    insertion order. *)
Fixpoint configs_get (sensor_configs : list (string * SensorCfg)) (sensor : string)
  : option SensorCfg :=
  match sensor_configs with
  | [] => None
  | (sid, cfg) :: rest =>
      if String.eqb sid sensor then Some cfg else configs_get rest sensor
  end.

(** [SENSORS = list(sensor_configs.keys())] *)
Definition SENSORS (sensor_configs : list (string * SensorCfg)) : list string :=
  map fst sensor_configs.

Definition load_state_from_file (st : State) : cursor_map :=
  default ∅ (state_file st).

(** [save_state]: a failure is logged and swallowed; it is taken to leave
    the file as it was. *)
Definition save_state (w : World) (cursors_data : cursor_map) (st : State) : State :=
  match file_write w cursors_data with
  | Ok _ =>
      {| cursors := cursors st; state_file := Some cursors_data;
         trace := (trace st ++ [FileSave cursors_data true])%list |}
  | Raise _ => log (FileSave cursors_data false) st
  end.

(** [fetch_last_key_from_influx]: the value of the first record of the
    first table that has one; [None] on any failure. *)
Definition fetch_last_key_from_influx (w : World) (sensor : string) : option string :=
  match influx_query w sensor with
  | Ok tables => mjoin (head (concat tables))
  | Raise _ => None
  end.

(** Lines 367-393, for one sensor. *)
Definition resolve_cursor (w : World) (saved_state : cursor_map)
    (sensor : string) (st : State) : State :=
  match saved_state !! sensor with
  | Some v => set_cursor sensor v st
  | None =>
      let influx_key := fetch_last_key_from_influx w sensor in
      let st := log (SinkQuery sensor) st in
      if truthy influx_key then set_cursor sensor influx_key st
      else
        let st := log (SourceGet sensor (LimitToLast 1)) st in
        match fb_get w sensor (LimitToLast 1) with
        | Ok (SDict ((k, r) :: items)) =>
            set_cursor sensor (Some (List.last (map fst items) k)) st
        | Ok _ => set_cursor sensor None st
        | Raise _ => set_cursor sensor None st
        end
  end.

(** Lines 363-396: resolve every sensor, then write the initial
    checkpoint. *)
Definition init_cursors (w : World) (sensors : list string) (st : State) : State :=
  let saved_state := load_state_from_file st in
  let st := fold_left (fun st sensor => resolve_cursor w saved_state sensor st)
              sensors st in
  save_state w (cursors st) st.

(** Lines 406-414: the query for a cursor value. *)
Definition build_query (last_key : option string) : query :=
  match last_key with
  | Some (String c r) => StartAt (String c r) 100
  | _ => LimitToLast 100
  end.

(** [sorted(keys)]: ascending code-point order. *)
Fixpoint insert_sorted (k : string) (l : list string) : list string :=
  match l with
  | [] => [k]
  | x :: r => if String.leb k x then k :: l else x :: insert_sorted k r
  end.

Definition sorted (l : list string) : list string :=
  foldr insert_sorted [] l.

(** [snapshot[key]] *)
Fixpoint items_get (items : list (string * node)) (key : string) : result node :=
  match items with
  | [] => Raise KeyError
  | (k, r) :: rest => if String.eqb k key then Ok r else items_get rest key
  end.

(** [last_key in snapshot] *)
Definition key_in (last_key : option string) (items : list (string * node)) : bool :=
  match last_key with
  | Some k => existsb (String.eqb k) (map fst items)
  | None => false
  end.

(** [key == last_key] *)
Definition is_cursor (key : string) (last_key : option string) : bool :=
  match last_key with
  | Some k => String.eqb key k
  | None => false
  end.

Section WithRuntime.
Context {rt : Runtime}.

(** Lines 430-440: the loop over the sorted keys, threading [points] and
    [new_last_key]. *)
Fixpoint page_loop (w : World) (cfg : option SensorCfg) (sensor : string)
    (items : list (string * node)) (last_key : option string)
    (keys : list string) (points : list Point) (new_last_key : option string)
  : result (list Point * option string) :=
  match keys with
  | [] => Ok (points, new_last_key)
  | key :: rest =>
      if is_cursor key last_key then
        page_loop w cfg sensor items last_key rest points new_last_key
      else
        record ← items_get items key;
        let points :=
          match record with
          | NDict _ =>
              let path := "/" +:+ sensor +:+ "/" +:+ key in
              match clean_sensor_data (clock w path) path record cfg with
              | Some pt => (points ++ [pt])%list
              | None => points
              end
          | NLeaf _ => points
          end in
        page_loop w cfg sensor items last_key rest points (Some key)
  end.

(** Lines 424-440 for a fetched mapping: the batch and the new cursor. *)
Definition process_page (w : World) (sensor_configs : list (string * SensorCfg))
    (sensor : string) (items : list (string * node)) (last_key : option string)
  : result (list Point * option string) :=
  page_loop w (configs_get sensor_configs sensor) sensor items last_key
    (sorted (map fst items)) [] last_key.

(** Lines 442-446: the batched write, and only then the cursor. *)
Definition commit_page (w : World) (sensor : string) (points : list Point)
    (new_last_key : option string) (st : State) : State :=
  match points with
  | [] => st
  | _ =>
      match influx_write w points with
      | Raise _ => log (SinkWrite points false) st
      | Ok _ =>
          let st := log (SinkWrite points true) st in
          let st := set_cursor sensor new_last_key st in
          save_state w (cursors st) st
      end
  end.

(** Lines 402-449: one sensor in one cycle. Whatever is raised inside is
    caught and logged by the [except Exception] of line 448. *)
Definition poll_sensor (w : World) (sensor_configs : list (string * SensorCfg))
    (sensor : string) (st : State) : State :=
  let last_key := default None (cursors st !! sensor) in
  let q := build_query last_key in
  let st := log (SourceGet sensor q) st in
  match fb_get w sensor q with
  | Raise _ => st
  | Ok SOther => st
  | Ok (SDict []) => st
  | Ok (SDict items) =>
      if (length items =? 1)%nat && key_in last_key items then st
      else
        match process_page w sensor_configs sensor items last_key with
        | Raise _ => st
        | Ok (points, new_last_key) =>
            commit_page w sensor points new_last_key st
        end
  end.

(** One pass of the [for sensor in SENSORS] loop. *)
Definition poll_cycle (w : World) (sensor_configs : list (string * SensorCfg))
    (st : State) : State :=
  fold_left (fun st sensor => poll_sensor w sensor_configs sensor st)
    (SENSORS sensor_configs) st.

(** The first [n] passes of the [while True] loop. *)
Fixpoint poll_cycles (n : nat) (w : World)
    (sensor_configs : list (string * SensorCfg)) (st : State) : State :=
  match n with
  | O => st
  | S n' => poll_cycles n' w sensor_configs (poll_cycle w sensor_configs st)
  end.

End WithRuntime.

End Bridge.

Import Bridge.

(* ===================================================================== *)
(** * The image poller ([src/image_poller.py], lines 125-288) *)
(* ===================================================================== *)

Module Media.

(** One entry of [image_paths]: every key is optional in the file. *)
Record ViewCfg := {
  view_prefix : option string;
  view_date_folders : option bool;
  view_filename_pattern : option string;
  view_timestamp_source : option string;
  view_timestamp_regex : option string;
  view_timestamp_format : option string;
}.

(** A storage object as the listing returns it. *)
Record Blob := {
  blob_name : string;
  time_created : option datetime;
}.

(** The pointer record ([Point("sensor_image")]). *)
Record ImagePoint := {
  img_sensor_id : string;
  img_view : string;
  image_url : string;
  img_filename : string;
  img_time : datetime;
}.

(** What a seen-set can be asked about: a blob name or a point object. A
    string never compares equal to a point. *)
Inductive pyobj :=
| OStr (s : string)
| OPoint (p : ImagePoint).

#[export] Instance ImagePoint_eq_dec : EqDecision ImagePoint.
Proof. solve_decision. Defined.
#[export] Instance pyobj_eq_dec : EqDecision pyobj.
Proof. solve_decision. Defined.

(** The calls made while polling, in order. *)
Inductive event :=
| Listing (prefix : string) (done : bool)
| Publish (name : string) (done : bool)
| Write (points : list ImagePoint) (acknowledged : bool).

(** The outside world of the poller: the storage bucket, the sink, the
    calendar, [fnmatch.fnmatch], the timestamp derivation of lines 96-122
    ([_get_blob_timestamp], taken as given with the three settings it
    reads), and whether the client library's point objects are hashable. *)
Record World := {
  list_blobs : string -> result (list Blob);
  make_public : string -> result string;
  write : list ImagePoint -> result unit;
  today_iso : string;
  yesterday_iso : string;
  fnmatch : string -> string -> bool;
  _get_blob_timestamp :
    Blob -> string -> option string -> string -> result datetime;
  point_hashable : bool;
}.

(** [_seen_blobs] and the trace of calls. A set is kept as the list of
    its members, without repetition. *)
Record State := {
  _seen_blobs : gmap string (list pyobj);
  trace : list event;
}.

Definition log (ev : event) (st : State) : State :=
  {| _seen_blobs := _seen_blobs st; trace := (trace st ++ [ev])%list |}.

(** [_seen_blobs[track_key]] once the entry exists *)
Definition seen (track_key : string) (st : State) : list pyobj :=
  default [] (_seen_blobs st !! track_key).

(** [x in s] *)
Definition set_in (x : pyobj) (s : list pyobj) : bool :=
  bool_decide (x ∈ s).

(** [s.add(x)] *)
Definition set_add (x : pyobj) (s : list pyobj) : list pyobj :=
  if set_in x s then s else (s ++ [x])%list.

(** [s.discard(x)] for a hashable [x] *)
Definition set_discard (x : pyobj) (s : list pyobj) : list pyobj :=
  filter (fun y => y ≠ x) s.

Definition update_seen (track_key : string) (f : list pyobj -> list pyobj)
    (st : State) : State :=
  {| _seen_blobs := <[track_key := f (seen track_key st)]> (_seen_blobs st);
     trace := trace st |}.

(** Lines 195-196 *)
Definition ensure_seen (track_key : string) (st : State) : State :=
  match _seen_blobs st !! track_key with
  | Some _ => st
  | None =>
      {| _seen_blobs := <[track_key := []]> (_seen_blobs st); trace := trace st |}
  end.

Definition _build_prefix_for_date (base_prefix target_date : string)
    (use_date_folders : bool) : string :=
  let prefix := rstrip "/" base_prefix in
  let prefix := if use_date_folders then prefix +:+ "/" +:+ target_date else prefix in
  prefix +:+ "/".

(** [os.path.basename] *)
Definition basename (name : string) : string := List.last (split "/" name) "".

(** Lines 198-212 *)
Definition prefixes_to_scan (w : World) (prefix : string) (date_folders : bool)
  : list string :=
  if date_folders then
    [_build_prefix_for_date prefix (today_iso w) true;
     _build_prefix_for_date prefix (yesterday_iso w) true]
  else [rstrip "/" prefix +:+ "/"].

(** Lines 226-269: one blob of a listing. The result is the list
    [new_points]; a raise leaves the loops. *)
Definition ingest_blob (w : World) (sensor_id view_name track_key : string)
    (view_cfg : ViewCfg) (blob : Blob) (new_points : list ImagePoint)
    (st : State) : result (list ImagePoint) * State :=
  let name := blob_name blob in
  if ends_with "/" name then (Ok new_points, st)
  else if set_in (OStr name) (seen track_key st) then (Ok new_points, st)
  else
    let filename_pattern := default "*.jpg" (view_filename_pattern view_cfg) in
    if negb (fnmatch w (lower_str (basename name)) (lower_str filename_pattern))
    then (Ok new_points, st)
    else
      match make_public w name with
      | Raise _ => (Ok new_points, log (Publish name false) st)
      | Ok public_url =>
          let st := log (Publish name true) st in
          match _get_blob_timestamp w blob
                  (default "blob" (view_timestamp_source view_cfg))
                  (view_timestamp_regex view_cfg)
                  (default "" (view_timestamp_format view_cfg)) with
          | Raise e => (Raise e, st)
          | Ok ts =>
              let point := {| img_sensor_id := sensor_id;
                              img_view := view_name;
                              image_url := public_url;
                              img_filename := basename name;
                              img_time := ts |} in
              (Ok (new_points ++ [point])%list,
               update_seen track_key (set_add (OStr name)) st)
          end
      end.

(** The [for blob in blobs] loop. *)
Fixpoint ingest_blobs (w : World) (sensor_id view_name track_key : string)
    (view_cfg : ViewCfg) (blobs : list Blob) (new_points : list ImagePoint)
    (st : State) : result (list ImagePoint) * State :=
  match blobs with
  | [] => (Ok new_points, st)
  | blob :: rest =>
      match ingest_blob w sensor_id view_name track_key view_cfg blob
              new_points st with
      | (Ok new_points, st) =>
          ingest_blobs w sensor_id view_name track_key view_cfg rest new_points st
      | (Raise e, st) => (Raise e, st)
      end
  end.

(** The [for scan_prefix in prefixes_to_scan] loop; a listing that fails
    is logged and skipped. *)
Fixpoint scan_prefixes (w : World) (sensor_id view_name track_key : string)
    (view_cfg : ViewCfg) (prefixes : list string) (new_points : list ImagePoint)
    (st : State) : result (list ImagePoint) * State :=
  match prefixes with
  | [] => (Ok new_points, st)
  | scan_prefix :: rest =>
      match list_blobs w scan_prefix with
      | Raise _ =>
          scan_prefixes w sensor_id view_name track_key view_cfg rest new_points
            (log (Listing scan_prefix false) st)
      | Ok blobs =>
          match ingest_blobs w sensor_id view_name track_key view_cfg blobs
                  new_points (log (Listing scan_prefix true) st) with
          | (Ok new_points, st) =>
              scan_prefixes w sensor_id view_name track_key view_cfg rest
                new_points st
          | (Raise e, st) => (Raise e, st)
          end
      end
  end.

(** Lines 287-288: [for pt in new_points: _seen_blobs[track_key].discard(pt)].
    Discarding an unhashable object raises [TypeError]. *)
Fixpoint discard_points (w : World) (track_key : string)
    (new_points : list ImagePoint) (st : State) : result unit * State :=
  match new_points with
  | [] => (Ok (), st)
  | pt :: rest =>
      if point_hashable w then
        discard_points w track_key rest
          (update_seen track_key (set_discard (OPoint pt)) st)
      else (Raise TypeError, st)
  end.

(** Lines 271-288: the batched write and its [except] clause. *)
Definition write_points (w : World) (track_key : string)
    (new_points : list ImagePoint) (st : State) : result unit * State :=
  match new_points with
  | [] => (Ok (), st)
  | _ =>
      match write w new_points with
      | Ok _ => (Ok (), log (Write new_points true) st)
      | Raise _ =>
          discard_points w track_key new_points (log (Write new_points false) st)
      end
  end.

(** Lines 185-288: one view of one sensor. *)
Definition poll_view (w : World) (sensor_id view_name : string)
    (view_cfg : ViewCfg) (st : State) : result unit * State :=
  let prefix := default "" (view_prefix view_cfg) in
  let date_folders := default true (view_date_folders view_cfg) in
  let track_key := sensor_id +:+ "/" +:+ view_name in
  let st := ensure_seen track_key st in
  match scan_prefixes w sensor_id view_name track_key view_cfg
          (prefixes_to_scan w prefix date_folders) [] st with
  | (Ok new_points, st) => write_points w track_key new_points st
  | (Raise e, st) => (Raise e, st)
  end.

(** The [for view_name, view_cfg in image_paths.items()] loop. *)
Fixpoint poll_views (w : World) (sensor_id : string)
    (image_paths : list (string * ViewCfg)) (st : State) : result unit * State :=
  match image_paths with
  | [] => (Ok (), st)
  | (view_name, view_cfg) :: rest =>
      match poll_view w sensor_id view_name view_cfg st with
      | (Ok _, st) => poll_views w sensor_id rest st
      | (Raise e, st) => (Raise e, st)
      end
  end.

(** [_poll_once], over the [image_paths] of each configured sensor (a
    sensor without views has the empty list). *)
Fixpoint _poll_once (w : World)
    (sensor_configs : list (string * list (string * ViewCfg))) (st : State)
  : result unit * State :=
  match sensor_configs with
  | [] => (Ok (), st)
  | (sensor_id, image_paths) :: rest =>
      match poll_views w sensor_id image_paths st with
      | (Ok _, st) => _poll_once w rest st
      | (Raise e, st) => (Raise e, st)
      end
  end.

(** One pass of the [while True] loop of [poll_sensor_images]: whatever
    [_poll_once] raises is logged, and the state it left is kept. *)
Definition poll_cycle (w : World)
    (sensor_configs : list (string * list (string * ViewCfg))) (st : State)
  : State :=
  snd (_poll_once w sensor_configs st).

End Media.

(* ===================================================================== *)
(** * A reference host, to run the code on concrete inputs *)
(* ===================================================================== *)

Module RefHost.

(** Days from 1970-01-01 to the civil date [y]-[m]-[d] (proleptic
    Gregorian calendar). *)
Definition days_from_civil (y m d : Z) : Z :=
  let y' := if m <=? 2 then y - 1 else y in
  let era := y' / 400 in
  let yoe := y' - era * 400 in
  let mp := (m + 9) mod 12 in
  let doy := (153 * mp + 2) / 5 + d - 1 in
  let doe := yoe * 365 + yoe / 4 - yoe / 100 + doy in
  era * 146097 + doe - 719468.

Definition is_leap (y : Z) : bool :=
  ((y mod 4 =? 0) && negb (y mod 100 =? 0)) || (y mod 400 =? 0).

Definition days_in_month (y m : Z) : Z :=
  if m =? 2 then (if is_leap y then 29 else 28)
  else if (m =? 4) || (m =? 6) || (m =? 9) || (m =? 11) then 30 else 31.

(** [datetime(y, m, d, H, M, S, us, tzinfo=utc)] *)
Definition mk_datetime (y m d H M S us : Z) : result datetime :=
  if (1 <=? y) && (y <=? 9999) && (1 <=? m) && (m <=? 12)
     && (1 <=? d) && (d <=? days_in_month y m)
     && (0 <=? H) && (H <=? 23) && (0 <=? M) && (M <=? 59)
     && (0 <=? S) && (S <=? 59)
  then Ok ((((days_from_civil y m d * 24 + H) * 60 + M) * 60 + S) * 1000000 + us)
  else Raise ValueError.

(** The fields read so far by [strptime]. *)
Record fields := {
  f_Y : Z; f_m : Z; f_d : Z; f_H : Z; f_M : Z; f_S : Z; f_us : Z;
}.

Definition set_field (c : ascii) (v : Z) (f : fields) : fields :=
  match c with
  | "Y"%char => {| f_Y := v; f_m := f_m f; f_d := f_d f; f_H := f_H f;
                   f_M := f_M f; f_S := f_S f; f_us := f_us f |}
  | "m"%char => {| f_Y := f_Y f; f_m := v; f_d := f_d f; f_H := f_H f;
                   f_M := f_M f; f_S := f_S f; f_us := f_us f |}
  | "d"%char => {| f_Y := f_Y f; f_m := f_m f; f_d := v; f_H := f_H f;
                   f_M := f_M f; f_S := f_S f; f_us := f_us f |}
  | "H"%char => {| f_Y := f_Y f; f_m := f_m f; f_d := f_d f; f_H := v;
                   f_M := f_M f; f_S := f_S f; f_us := f_us f |}
  | "M"%char => {| f_Y := f_Y f; f_m := f_m f; f_d := f_d f; f_H := f_H f;
                   f_M := v; f_S := f_S f; f_us := f_us f |}
  | "S"%char => {| f_Y := f_Y f; f_m := f_m f; f_d := f_d f; f_H := f_H f;
                   f_M := f_M f; f_S := v; f_us := f_us f |}
  | _ => {| f_Y := f_Y f; f_m := f_m f; f_d := f_d f; f_H := f_H f;
            f_M := f_M f; f_S := f_S f; f_us := v |}
  end.

(** The first [n] characters of [s] when they are all digits. *)
Fixpoint take_digits (n : nat) (s : string) : option (string * string) :=
  match n with
  | O => Some (EmptyString, s)
  | S n' =>
      match s with
      | String c r =>
          if is_digit c then
            '(d, rest) ← take_digits n' r; Some (String c d, rest)
          else None
      | EmptyString => None
      end
  end.

(** A field of one or two digits with a value in [lo..hi]: two digits
    when they fit, else one. *)
Definition two_digit_field (lo hi : Z) (s : string) : option (Z * string) :=
  match take_digits 2 s with
  | Some (d, rest) =>
      let v := int_of_digits d in
      if (lo <=? v) && (v <=? hi) then Some (v, rest)
      else
        '(d1, rest1) ← take_digits 1 s;
        let v1 := int_of_digits d1 in
        if (lo <=? v1) && (v1 <=? hi) then Some (v1, rest1) else None
  | None =>
      '(d1, rest1) ← take_digits 1 s;
      let v1 := int_of_digits d1 in
      if (lo <=? v1) && (v1 <=? hi) then Some (v1, rest1) else None
  end.

(** One to six digits of a fraction of a second, as microseconds. *)
Definition fraction_field (s : string) : option (Z * string) :=
  let '(d, rest) := span_digits s in
  let n := String.length d in
  if (1 <=? n)%nat && (n <=? 6)%nat
  then Some (int_of_digits d * 10 ^ (6 - Z.of_nat n), rest)
  else None.

Definition directive (c : ascii) (s : string) : option (Z * string) :=
  match c with
  | "Y"%char => '(d, rest) ← take_digits 4 s; Some (int_of_digits d, rest)
  | "m"%char => two_digit_field 1 12 s
  | "d"%char => two_digit_field 1 31 s
  | "H"%char => two_digit_field 0 23 s
  | "M"%char => two_digit_field 0 59 s
  | "S"%char => two_digit_field 0 61 s
  | "f"%char => fraction_field s
  | _ => None
  end.

(** Match [s] against the pattern, filling the fields; a blank in the
    pattern stands for a run of blanks, letters match in either case. *)
Fixpoint match_pattern (pat : string) (s : string) (f : fields) : option fields :=
  match pat with
  | EmptyString =>
      match s with
      | EmptyString => Some f
      | _ => None
      end
  | String "%" (String c pat') =>
      '(v, rest) ← directive c s;
      match_pattern pat' rest (set_field c v f)
  | String " " pat' =>
      match s with
      | String c r =>
          if is_space c then match_pattern pat' (drop_spaces r) f else None
      | EmptyString => None
      end
  | String p pat' =>
      match s with
      | String c r =>
          if Ascii.eqb (lower p) (lower c) then match_pattern pat' r f else None
      | EmptyString => None
      end
  end.

Definition ref_strptime (s pat : string) : result datetime :=
  match match_pattern pat s
          {| f_Y := 1900; f_m := 1; f_d := 1; f_H := 0; f_M := 0; f_S := 0;
             f_us := 0 |} with
  | Some f => mk_datetime (f_Y f) (f_m f) (f_d f) (f_H f) (f_M f) (f_S f) (f_us f)
  | None => Raise ValueError
  end.

(** Nearest integer to [n / d], ties to even, for [d > 0]. *)
Definition round_half_even (n d : Z) : Z :=
  let q := n / d in
  let r := n mod d in
  match 2 * r ?= d with
  | Lt => q
  | Gt => q + 1
  | Eq => if Z.even q then q else q + 1
  end.

(** The instant [ts] seconds after the epoch, to the microsecond, on a
    host with a 64-bit [time_t]: [nan] is a [ValueError], a value beyond
    [time_t] an [OverflowError], a year [gmtime] cannot hold an [OSError],
    a year outside 1..9999 a [ValueError]. *)
Definition ref_fromtimestamp (ts : float) : result datetime :=
  match ts with
  | S754_nan => Raise ValueError
  | S754_infinity _ => Raise OverflowError
  | S754_zero _ => Ok 0
  | S754_finite s m e =>
      let a := match e with
               | Zneg k => round_half_even (Zpos m * 1000000) (2 ^ Zpos k)
               | _ => Zpos m * 2 ^ e * 1000000
               end in
      let us := if s then - a else a in
      let secs := us / 1000000 in
      if (secs <? - 2 ^ 63) || (2 ^ 63 <=? secs) then Raise OverflowError
      else if (secs <? -67768040609740800) || (67768036191676800 <=? secs)
      then Raise OSError
      else if (secs <? -62135596800) || (253402300800 <=? secs)
      then Raise ValueError
      else Ok us
  end.

Fixpoint pad_zeros (n : nat) (s : string) : string :=
  match n with
  | O => s
  | S n' => if (String.length s <? n)%nat then pad_zeros n' (String "0" s) else s
  end.

(** The digits of a fraction, without trailing zeros but at least one. *)
Definition trim_fraction (s : string) : string :=
  match rstrip "0" s with
  | EmptyString => "0"
  | t => t
  end.

(** The exact decimal expansion of a float; it is the [repr] of the
    integral values below 10^16. *)
Definition ref_float_repr (f : float) : string :=
  match f with
  | S754_nan => "nan"
  | S754_infinity s => if s then "-inf" else "inf"
  | S754_zero s => if s then "-0.0" else "0.0"
  | S754_finite s m e =>
      let sign := if s then "-" else "" in
      match e with
      | Zneg k =>
          let ip := Z.shiftr (Zpos m) (Zpos k) in
          let fp := (Zpos m mod 2 ^ Zpos k) * 5 ^ Zpos k in
          sign +:+ str_of_Z ip +:+ "." +:+
            trim_fraction (pad_zeros (Pos.to_nat k) (str_of_Z fp))
      | _ => sign +:+ str_of_Z (Zpos m * 2 ^ e) +:+ ".0"
      end
  end.

(** [fnmatch.fnmatchcase] for patterns made of [*], [?] and literal
    characters. *)
Fixpoint glob_match (pat : string) : string → bool :=
  match pat with
  | EmptyString => λ s, match s with EmptyString => true | _ => false end
  | String "*" pat' =>
      fix star (s : string) : bool :=
        glob_match pat' s
        || match s with
           | EmptyString => false
           | String _ s' => star s'
           end
  | String "?" pat' =>
      λ s, match s with
           | String _ s' => glob_match pat' s'
           | EmptyString => false
           end
  | String p pat' =>
      λ s, match s with
           | String c s' => Ascii.eqb p c && glob_match pat' s'
           | EmptyString => false
           end
  end.

#[export] Instance ref_runtime : Runtime := {
  strptime := ref_strptime;
  fromtimestamp := ref_fromtimestamp;
  float_repr := ref_float_repr;
}.

End RefHost.

Import RefHost.


(* ===================================================================== *)
(** * Concrete inputs *)
(* ===================================================================== *)

Module Examples.

(** Two clock readings, one second apart. *)
Definition clk_a : Clock :=
  {| time_time := float_lit 1771509325; utc_now := 1771509325000000 |}.

(** A well-formed record, a record without distance field, a record whose
    battery value is not a number, and a record without timestamp. *)
Definition rec_valid : gmap string value :=
  {[ "dist_cm" := VStr "R0231"; "bat_volt" := VFloat (float_lit 4);
     "solar_volt" := VInt 5; "timestamp" := VInt 1700000000 ]}.
Definition rec_no_distance : gmap string value :=
  {[ "bat_volt" := VInt 4; "timestamp" := VInt 1700000060 ]}.
Definition rec_bad_battery : gmap string value :=
  {[ "dist_cm" := VInt 120; "bat_volt" := VStr "abc";
     "timestamp" := VInt 1700000120 ]}.
Definition rec_no_timestamp : gmap string value :=
  {[ "dist_cm" := VInt 120; "bat_volt" := VInt 4 ]}.

(** A configuration that names the distance field explicitly. *)
Definition cfg_range : SensorCfg :=
  {| cfg_fields := {[ "distance" := "range" ]};
     cfg_distance_encoding := None;
     cfg_timestamp_format := None |}.


(** A source store holding [records] in key order under one sensor:
    [start_at(k).limit_to_first(n)] answers the first [n] records from
    [k] on, [limit_to_last(n)] the last [n]; no record, no mapping. *)
Definition store_page (records : list (string * node)) (q : query) : snapshot :=
  let page :=
    match q with
    | StartAt k n => take n (filter (λ kr, String.leb k kr.1 = true) records)
    | LimitToLast n => drop (length records - n) records
    end in
  match page with
  | [] => SOther
  | _ => SDict page
  end.

(** A world with one sensor, [flood1], a sink that is up or down, and what
    the sink last holds for the sensor. *)
Definition world_of (records : list (string * node)) (sink_up : bool)
    (sink_last : option string) : World :=
  {| fb_get := λ sensor q,
       if String.eqb sensor "flood1" then Ok (store_page records q) else Ok SOther;
     influx_write := λ _, if sink_up then Ok () else Raise OtherError;
     influx_query := λ _,
       match sink_last with
       | Some k => Ok [[Some k]]
       | None => Ok []
       end;
     file_write := λ _, Ok ();
     clock := λ _, clk_a |}.

Definition configs : list (string * SensorCfg) :=
  [("flood1", {| cfg_fields := ∅; cfg_distance_encoding := None;
                 cfg_timestamp_format := None |})].

(** The page of the end-to-end scenario: the cursor record, a record
    without distance, a valid record. *)
Definition page_scenario : list (string * node) :=
  [("-Ka001", NDict rec_valid); ("-Ka002", NDict rec_no_distance);
   ("-Ka003", NDict rec_valid)].

(** A page whose records after the cursor all fail: one is not a mapping,
    one has a battery value that is not a number. *)
Definition page_poison : list (string * node) :=
  [("-Ka001", NDict rec_valid); ("-Ka002", NLeaf (VStr "garbage"));
   ("-Ka003", NDict rec_bad_battery)].

(** [main] with the cursor of [flood1] at [-Ka001], in memory and on
    disk. *)
Definition st_Ka001 : Bridge.State :=
  {| cursors := {[ "flood1" := Some "-Ka001" ]};
     state_file := Some {[ "flood1" := Some "-Ka001" ]};
     Bridge.trace := [] |}.

(** [main] before the cursors are initialized, with and without a state
    file. *)
Definition st_fresh (file : option (gmap string (option string))) : Bridge.State :=
  {| cursors := ∅; state_file := file; Bridge.trace := [] |}.

(** One flat view, [front], of the sensor [flood1]. *)
Definition view_front : Media.ViewCfg :=
  {| Media.view_prefix := Some "cam/front";
     Media.view_date_folders := Some false;
     Media.view_filename_pattern := None;
     Media.view_timestamp_source := None;
     Media.view_timestamp_regex := None;
     Media.view_timestamp_format := None |}.

Definition media_configs : list (string * list (string * Media.ViewCfg)) :=
  [("flood1", [("front", view_front)])].

(** A bucket holding one image, a sink that is up or down, and point
    objects that are hashable or not. *)
Definition media_world (sink_up hashable : bool) : Media.World :=
  {| Media.list_blobs := λ prefix,
       if String.eqb prefix "cam/front/"
       then Ok [ {| Media.blob_name := "cam/front/a.jpg";
                    Media.time_created := Some 1771509325000000 |} ]
       else Ok [];
     Media.make_public := λ name, Ok ("https://storage.example/" +:+ name);
     Media.write := λ _, if sink_up then Ok () else Raise OtherError;
     Media.today_iso := "2026-02-19";
     Media.yesterday_iso := "2026-02-18";
     Media.fnmatch := λ name pat, glob_match pat name;
     Media._get_blob_timestamp := λ blob _ _ _,
       Ok (default (utc_now clk_a) (Media.time_created blob));
     Media.point_hashable := hashable |}.

Definition media_st0 : Media.State :=
  {| Media._seen_blobs := ∅; Media.trace := [] |}.

End Examples.

Import Examples.

(* ===================================================================== *)
(** * Notions used in the statements *)
(* ===================================================================== *)

(** Every character of the string is a decimal digit. *)
Fixpoint all_digits (s : string) : bool :=
  match s with
  | EmptyString => true
  | String c r => is_digit c && all_digits r
  end.



(** The first non-null value of a name in a record. *)
Definition non_null (d : gmap string value) (name : string) : option value :=
  match d !! name with
  | Some VNone | None => None
  | Some v => Some v
  end.

(** The first non-null value along a chain of names, null when there is
    none. *)
Definition chain_value (d : gmap string value) (fallbacks : list string) : value :=
  default VNone (head (omap (non_null d) fallbacks)).

(** Field resolution in the words of the specification: the value under
    the configured name when the record holds a non-null one, otherwise
    the first non-null value along the chain. *)
Definition claimed_value (d : gmap string value) (field_name : option string)
    (fallbacks : list string) : value :=
  match field_name ≫= non_null d with
  | Some v => v
  | None => chain_value d fallbacks
  end.

(** Field resolution as [_get_field] performs it: a configured name is
    the only one looked up. *)
Definition resolved_value (d : gmap string value) (field_name : option string)
    (fallbacks : list string) : value :=
  if truthy field_name then default VNone (d !! default "" field_name)
  else chain_value d fallbacks.

(** The settings [clean_sensor_data] reads from the sensor's
    configuration, with their defaults. *)
Definition ts_field_of (sensor_cfg : option SensorCfg) : string :=
  default "timestamp" (from_option cfg_fields ∅ sensor_cfg !! "timestamp").
Definition ts_format_of (sensor_cfg : option SensorCfg) : string :=
  default "epoch_auto" (sensor_cfg ≫= cfg_timestamp_format).
Definition dist_encoding_of (sensor_cfg : option SensorCfg) : string :=
  default "auto" (sensor_cfg ≫= cfg_distance_encoding).
Definition field_name_of (sensor_cfg : option SensorCfg) (logical : string)
  : option string :=
  from_option cfg_fields ∅ sensor_cfg !! logical.

(** The literal [1e11] of [_parse_timestamp]. *)
Definition threshold : float := float_lit 100000000000.

(** [cursors.get(sensor)] *)
Definition cursor_of (st : Bridge.State) (sensor : string) : option string :=
  default None (cursors st !! sensor).

(** The key of the newest record the source holds for a sensor, [None]
    when it holds none or cannot be asked. *)
Definition newest_source_key (w : World) (sensor : string) : option string :=
  match fb_get w sensor (LimitToLast 1) with
  | Ok (SDict ((k, r) :: items)) => Some (List.last (map fst items) k)
  | _ => None
  end.

(** The three tiers, in the words of the specification: the entry of the
    local file when there is one; else the key the sink last holds, when
    it holds one; else the newest key at the source, or null. *)
Definition tiered_cursor (w : World) (saved_state : gmap string (option string))
    (sensor : string) : option string :=
  match saved_state !! sensor with
  | Some v => v
  | None =>
      if truthy (fetch_last_key_from_influx w sensor)
      then fetch_last_key_from_influx w sensor
      else newest_source_key w sensor
  end.

(** The calls the resolution of one sensor makes. *)
Definition recovery_calls (w : World) (saved_state : gmap string (option string))
    (sensor : string) : list Bridge.event :=
  match saved_state !! sensor with
  | Some _ => []
  | None =>
      if truthy (fetch_last_key_from_influx w sensor) then [SinkQuery sensor]
      else [SinkQuery sensor; SourceGet sensor (LimitToLast 1)]
  end.

Section Notions.
Context {rt : Runtime}.



(** The point a key of the page yields, if any: the record must be a
    mapping and its normalization must succeed. *)
Definition normalize_key (w : World) (cfg : option SensorCfg) (sensor : string)
    (items : list (string * node)) (key : string) : option Point :=
  match items_get items key with
  | Ok (NDict d) =>
      clean_sensor_data (clock w ("/" +:+ sensor +:+ "/" +:+ key))
        ("/" +:+ sensor +:+ "/" +:+ key) (NDict d) cfg
  | _ => None
  end.

(** The keys of the page after the cursor, in ascending order. *)
Definition new_keys (items : list (string * node)) (last_key : option string)
  : list string :=
  filter (λ k, is_cursor k last_key = false) (sorted (map fst items)).

(** The batch of a page: the points of the new keys that normalize. *)
Definition page_points (w : World) (sensor_configs : list (string * SensorCfg))
    (sensor : string) (items : list (string * node)) (last_key : option string)
  : list Point :=
  omap (normalize_key w (configs_get sensor_configs sensor) sensor items)
    (new_keys items last_key).

End Notions.

(* ===================================================================== *)
(** * The timestamp of a blob ([src/image_poller.py], lines 30-122) *)
(* ===================================================================== *)

Module BlobTime.

(** What the timestamp derivation asks of its host:
    [re.search(pattern, text)], answering no match or the tuple
    [match.groups()], where a group that took no part in the match is
    [None]; the constructor [datetime(y, m, d, H, M, S, tzinfo=utc)];
    [date.today()]; and [datetime.now(utc)]. *)
Record Host := {
  re_search : string -> string -> result (option (list (option string)));
  datetime_utc : Z -> Z -> Z -> Z -> Z -> Z -> result datetime;
  today : Z * Z * Z;
  now_utc : datetime;
}.

(** [int(s)] on a string: blanks around, an optional sign, decimal digits
    with single underscores between them; anything else is a
    [ValueError]. The interpreter's limit on the number of digits is left
    out. *)
Definition int_of_string (s : string) : result Z :=
  match drop_underscores None (strip s) with
  | None => Raise ValueError
  | Some t =>
      let '(neg, r) := take_sign t in
      match r with
      | EmptyString => Raise ValueError
      | _ =>
          if all_digits r
          then Ok (if neg then - int_of_digits r else int_of_digits r)
          else Raise ValueError
      end
  end.

(** [float(g)] and [int(g)] on a group: [None] is a [TypeError]. *)
Definition group_float (g : option string) : result float :=
  match g with
  | Some s => float_of_string s
  | None => Raise TypeError
  end.

Definition group_int (g : option string) : result Z :=
  match g with
  | Some s => int_of_string s
  | None => Raise TypeError
  end.

(** [[int(g) for g in groups]] *)
Fixpoint group_ints (groups : list (option string)) : result (list Z) :=
  match groups with
  | [] => Ok []
  | g :: rest => v ← group_int g; vs ← group_ints rest; Ok (v :: vs)
  end.

Section WithRuntime.
Context {rt : Runtime}.

(** Lines 53-91: the body of the [try] block, for a non-empty tuple of
    groups whose first is [g0]. *)
Definition extract_body (h : Host) (g0 : option string)
    (groups : list (option string)) (timestamp_format : string)
  : result (option datetime) :=
  if String.eqb timestamp_format "epoch_s" || String.eqb timestamp_format "epoch_ms"
  then
    epoch_val ← group_float g0;
    let epoch_val :=
      if String.eqb timestamp_format "epoch_ms"
      then fdiv epoch_val (float_lit 1000) else epoch_val in
    dt ← fromtimestamp epoch_val;
    Ok (Some dt)
  else if (6 <=? length groups)%nat then
    y ← group_int (nth 0 groups None);
    m ← group_int (nth 1 groups None);
    d ← group_int (nth 2 groups None);
    H ← group_int (nth 3 groups None);
    M ← group_int (nth 4 groups None);
    S ← group_int (nth 5 groups None);
    dt ← datetime_utc h y m d H M S;
    Ok (Some dt)
  else if (3 <=? length groups)%nat then
    vals ← group_ints groups;
    let v0 := nth 0 vals 0 in
    let v1 := nth 1 vals 0 in
    let v2 := nth 2 vals 0 in
    if 100 <? v0 then
      dt ← datetime_utc h v0 v1 v2 0 0 0;
      Ok (Some dt)
    else
      let '(ty, tm, td) := today h in
      dt ← datetime_utc h ty tm td v0 v1 v2;
      Ok (Some dt)
  else
    epoch_val ← group_float g0;
    if fgt epoch_val (float_lit 1000000000) then
      dt ← fromtimestamp epoch_val;
      Ok (Some dt)
    else Ok None.

Definition _extract_timestamp_from_filename (h : Host) (filename : string)
    (regex_pattern : string) (timestamp_format : string)
  : result (option datetime) :=
  m ← re_search h regex_pattern filename;
  match m with
  | None => Ok None
  | Some [] => Ok None
  | Some (g0 :: rest) =>
      match extract_body h g0 (g0 :: rest) timestamp_format with
      | Raise ValueError | Raise IndexError | Raise OSError
      | Raise OverflowError => Ok None
      | r => r
      end
  end.

(** Lines 118-122: the creation time of the blob, or the current time. *)
Definition metadata_time (h : Host) (blob : Media.Blob) : datetime :=
  match Media.time_created blob with
  | Some t => t
  | None => now_utc h
  end.

Definition _get_blob_timestamp (h : Host) (blob : Media.Blob)
    (timestamp_source : string) (timestamp_regex : option string)
    (timestamp_format : string) : result datetime :=
  if String.eqb timestamp_source "filename" && truthy timestamp_regex then
    ts ← _extract_timestamp_from_filename h (Media.basename (Media.blob_name blob))
           (default "" timestamp_regex) timestamp_format;
    match ts with
    | Some dt => Ok dt
    | None => Ok (metadata_time h blob)
    end
  else Ok (metadata_time h blob).

End WithRuntime.

End BlobTime.

(* ===================================================================== *)
(** * The sensor configuration ([src/main.py], lines 40-66) *)
(* ===================================================================== *)

Module Config.

(** The truth value of a value read from the file. The empty containers
    are recognized by their forms. *)
Definition value_truthy (v : value) : bool :=
  match v with
  | VNone => false
  | VBool b => b
  | VInt z => negb (z =? 0)
  | VFloat (S754_zero _) => false
  | VFloat _ => true
  | VStr s => negb (String.eqb s "")
  | VOther form =>
      negb (String.eqb form "[]" || String.eqb form "{}"
            || String.eqb form "set()" || String.eqb form "b''")
  end.

(** The mapping under a sensor identifier: the [enabled] entry when there
    is one, the normalizer's settings and the image views. *)
Record SensorMeta := {
  meta_enabled : option value;
  meta_cfg : SensorCfg;
  meta_image_paths : list (string * Media.ViewCfg);
}.

(** The value under a sensor identifier: a mapping, or anything else
    (null for an entry without body). *)
Inductive MetaNode :=
| MMap (meta : SensorMeta)
| MOther.

(** The value under [sensors]: a mapping in file order, or anything else. *)
Inductive SensorsNode :=
| SNMap (entries : list (string * MetaNode))
| SNOther.

(** What [yaml.safe_load] returns: a false value (an empty file, an empty
    mapping), a mapping with or without the key [sensors], or any other
    true value. *)
Inductive ConfigDoc :=
| DocEmpty
| DocMap (sensors : option SensorsNode)
| DocOther.

(** The fallback of line 47: three legacy sensors, enabled, with no
    setting. *)
Definition legacy_meta : SensorMeta :=
  {| meta_enabled := Some (VBool true);
     meta_cfg := {| cfg_fields := ∅; cfg_distance_encoding := None;
                    cfg_timestamp_format := None |};
     meta_image_paths := [] |}.

Definition legacy_sensors : list (string * SensorMeta) :=
  [("floodmonitor1", legacy_meta); ("floodmonitor2", legacy_meta);
   ("LoRaWAN", legacy_meta)].

(** [meta.get("enabled", False)], as a condition *)
Definition is_enabled (meta : SensorMeta) : bool :=
  match meta_enabled meta with
  | Some v => value_truthy v
  | None => false
  end.

(** The comprehension of line 58: every entry is asked for [enabled], in
    file order; an entry that is no mapping has no [get]. *)
Fixpoint enabled_entries (entries : list (string * MetaNode))
  : result (list (string * SensorMeta)) :=
  match entries with
  | [] => Ok []
  | (sid, MOther) :: _ => Raise AttributeError
  | (sid, MMap meta) :: rest =>
      enabled ← enabled_entries rest;
      Ok (if is_enabled meta then (sid, meta) :: enabled else enabled)
  end.

(** [load_sensor_config]; [file] is [None] when the file does not exist,
    otherwise what opening and loading it gives. *)
Definition load_sensor_config (file : option (result ConfigDoc))
  : result (list (string * SensorMeta)) :=
  match file with
  | None => Ok legacy_sensors
  | Some (Raise e) => Raise e
  | Some (Ok DocEmpty) => Ok []
  | Some (Ok DocOther) => Raise AttributeError
  | Some (Ok (DocMap None)) => Ok []
  | Some (Ok (DocMap (Some SNOther))) => Raise AttributeError
  | Some (Ok (DocMap (Some (SNMap entries)))) => enabled_entries entries
  end.

(** The configuration as the polling loop reads it. *)
Definition normalizer_configs (enabled : list (string * SensorMeta))
  : list (string * SensorCfg) :=
  map (λ e, (e.1, meta_cfg e.2)) enabled.

End Config.

(* ===================================================================== *)
(** * The backfill ([src/backfill.py], lines 66-110) *)
(* ===================================================================== *)

Module Backfill.



Section WithRuntime.
Context {rt : Runtime}.




End WithRuntime.

End Backfill.

(* ===================================================================== *)
(** * Further notions and inputs *)
(* ===================================================================== *)

(** [k1 <= k2] on strings, as [sorted] compares them. *)
Definition key_le (k1 k2 : string) : Prop := String.leb k1 k2 = true.

(** The order of cursors: a null cursor is below every key. *)
Definition cursor_le (a b : option string) : Prop :=
  match a, b with
  | None, _ => True
  | Some x, Some y => key_le x y
  | Some _, None => False
  end.

(** The source answers [start_at(k)] with keys from [k] on only. *)
Definition honours_start_at (w : World) : Prop :=
  ∀ sensor k n items,
    fb_get w sensor (StartAt k n) = Ok (SDict items) →
    ∀ key, key ∈ map fst items → key_le k key.



(** [main] as a restart finds it: no cursor in memory, the state file as
    the previous run left it. *)
Definition restarted (st : Bridge.State) : Bridge.State :=
  {| cursors := ∅; state_file := state_file st; Bridge.trace := [] |}.

(** The batches the sink acknowledged, and the records they carry, each
    named by its sensor tag and its source key. *)
Definition acked (evs : list Bridge.event) : list (list Point) :=
  omap (λ ev, match ev with SinkWrite pts true => Some pts | _ => None end) evs.

Definition record_id (pt : Point) : string * string := (sensor_id pt, fb_key pt).

Definition delivered (evs : list Bridge.event) : list (string * string) :=
  concat (map (map record_id) (acked evs)).

(** The source answers with mappings whose keys are distinct and hold no
    slash. *)
Definition well_keyed (w : World) : Prop :=
  ∀ sensor q items,
    fb_get w sensor q = Ok (SDict items) →
    NoDup (map fst items)
    ∧ ∀ k, k ∈ map fst items → contains_char "/" k = false.

(** What has been delivered for a sensor is not above its cursor. *)
Definition below_cursors (st : Bridge.State) : Prop :=
  ∀ s k, (s, k) ∈ delivered (Bridge.trace st) →
         cursor_le (Some k) (cursor_of st s).

(** The blobs a pass tried to publish, those it did publish, and the
    batches it handed to the sink. *)
Definition publish_attempts (evs : list Media.event) : list string :=
  omap (λ ev, match ev with Media.Publish n _ => Some n | _ => None end) evs.
Definition published (evs : list Media.event) : list string :=
  omap (λ ev, match ev with Media.Publish n true => Some n | _ => None end) evs.
Definition pointer_writes (evs : list Media.event) : list (list Media.ImagePoint) :=
  omap (λ ev, match ev with Media.Write pts _ => Some pts | _ => None end) evs.

(** [filename_pattern] of a view, with its default. *)
Definition pattern_of (view_cfg : Media.ViewCfg) : string :=
  default "*.jpg" (Media.view_filename_pattern view_cfg).

(** A blob name the pass may publish: not in the seen-set [seen0], not a
    directory placeholder, and of a base name that matches the pattern
    once both are lowered. *)
Definition publishable (w : Media.World) (view_cfg : Media.ViewCfg)
    (seen0 : list Media.pyobj) (name : string) : Prop :=
  (Media.OStr name ∉ seen0)
  ∧ ends_with "/" name = false
  ∧ Media.fnmatch w (lower_str (Media.basename name))
      (lower_str (pattern_of view_cfg)) = true.

(** The pointer of a published blob: tagged with sensor and view, and
    carrying the public URL and the base name. *)
Definition points_to (w : Media.World) (sensor_id view_name : string)
    (pt : Media.ImagePoint) (name : string) : Prop :=
  Media.img_sensor_id pt = sensor_id
  ∧ Media.img_view pt = view_name
  ∧ Media.make_public w name = Ok (Media.image_url pt)
  ∧ Media.img_filename pt = Media.basename name.

(** A stretch of the scan of one view, from [st] with the points [pts] to
    [st'] with the outcome [r]: the calls it made, none of them a write;
    its publish attempts, each for a publishable name; the seen-sets,
    which lost no name; and, when it did not raise, one new point per blob
    published, in order, each blob now in the seen-set. *)
Definition scan_stretch (w : Media.World) (sensor_id view_name : string)
    (view_cfg : Media.ViewCfg) (st : Media.State) (pts : list Media.ImagePoint)
    (r : result (list Media.ImagePoint)) (st' : Media.State) : Prop :=
  let tk := sensor_id +:+ "/" +:+ view_name in
  ∃ evs,
    Media.trace st' = (Media.trace st ++ evs)%list
    ∧ pointer_writes evs = []
    ∧ Forall (publishable w view_cfg (Media.seen tk st)) (publish_attempts evs)
    ∧ (∀ tk0 name, Media.OStr name ∈ Media.seen tk0 st →
                   Media.OStr name ∈ Media.seen tk0 st')
    ∧ (∀ pts', r = Ok pts' →
         ∃ new, pts' = (pts ++ new)%list
                ∧ Forall2 (points_to w sensor_id view_name) new (published evs)
                ∧ Forall (λ n, Media.OStr n ∈ Media.seen tk st') (published evs)).






(** A configuration file with an enabled sensor, a disabled one and one
    without [enabled] entry. *)
Definition meta_with (enabled : option value) : Config.SensorMeta :=
  {| Config.meta_enabled := enabled;
     Config.meta_cfg := {| cfg_fields := ∅; cfg_distance_encoding := None;
                           cfg_timestamp_format := None |};
     Config.meta_image_paths := [] |}.

Definition doc_three : Config.ConfigDoc :=
  Config.DocMap (Some (Config.SNMap
    [("flood1", Config.MMap (meta_with (Some (VBool true))));
     ("flood2", Config.MMap (meta_with (Some (VBool false))));
     ("flood3", Config.MMap (meta_with None))])).

(** A configuration that reads timestamps as milliseconds. *)
Definition cfg_ms : SensorCfg :=
  {| cfg_fields := ∅; cfg_distance_encoding := None;
     cfg_timestamp_format := Some "epoch_ms" |}.

(* ===================================================================== *)
(** * Digit extraction and truncation *)
(* ===================================================================== *)






Section DistanceFacts.
Context {rt : Runtime}.



(** [int(f)] truncates toward zero: the result is the quotient, rounded
    toward zero, of the float's numerator by its denominator. *)
Lemma int_of_float_truncates (s : bool) (m : positive) (e : Z) :
  int_of_float (S754_finite s m e)
  = Ok (Z.quot ((if s then Zneg m else Zpos m) * 2 ^ Z.max e 0)
               (2 ^ Z.max (- e) 0)).
Proof.
  unfold int_of_float. f_equal.
  assert (Hs : (if s then Z.neg m else Z.pos m)
               = (if s then - Z.pos m else Z.pos m)) by (by destruct s).
  rewrite Hs. clear Hs.
  destruct e as [|k|k].
  - replace (Z.max 0 0) with 0 by lia. replace (Z.max (- 0) 0) with 0 by lia.
    rewrite Z.shiftl_0_r, Z.pow_0_r, Z.mul_1_r, Z.quot_1_r. done.
  - replace (Z.max (Z.pos k) 0) with (Z.pos k) by lia.
    replace (Z.max (- Z.pos k) 0) with 0 by lia.
    rewrite Z.shiftl_mul_pow2, Z.pow_0_r, Z.quot_1_r by lia.
    destruct s; lia.
  - replace (Z.max (Z.neg k) 0) with 0 by lia.
    replace (Z.max (- Z.neg k) 0) with (Z.pos k) by lia.
    rewrite Z.shiftr_div_pow2, Z.pow_0_r, Z.mul_1_r by lia.
    assert (0 < 2 ^ Z.pos k) by (apply Z.pow_pos_nonneg; lia).
    destruct s.
    + rewrite Z.quot_opp_l by lia. f_equal.
      symmetry. apply Z.quot_div_nonneg; lia.
    + symmetry. apply Z.quot_div_nonneg; lia.
Qed.




End DistanceFacts.




(* ===================================================================== *)
(** * Field resolution and the normalizer *)
(* ===================================================================== *)

Section RecordFacts.
Context {rt : Runtime}.

Lemma first_non_null_chain (d : gmap string value) (fallbacks : list string) :
  first_non_null (NDict d) fallbacks = Ok (chain_value d fallbacks).
Proof.
  unfold chain_value.
  induction fallbacks as [|fb rest IH]; simpl; [done|].
  unfold non_null at 1. 
  destruct (d !! fb) as [[]|] eqn:Hfb; simpl; rewrite ?Hfb; simpl; done.
Qed.

Lemma get_field_resolved (d : gmap string value) (field_name : option string)
    (fallbacks : list string) :
  _get_field (NDict d) field_name fallbacks
  = Ok (resolved_value d field_name fallbacks).
Proof.
  unfold _get_field, resolved_value.
  destruct field_name as [[|c r]|]; simpl; auto using first_non_null_chain.
Qed.



Lemma clean_sensor_data_body_dict clk key d cfg :
  clean_sensor_data_body clk key (NDict d) cfg =
    (dist ← _parse_distance
        (resolved_value d (field_name_of cfg "distance") _DISTANCE_FALLBACK_FIELDS)
        (dist_encoding_of cfg);
     bat ← float_or_zero
        (resolved_value d (field_name_of cfg "battery") _BATTERY_FALLBACK_FIELDS);
     sol ← float_or_zero
        (resolved_value d (field_name_of cfg "solar") _SOLAR_FALLBACK_FIELDS);
     dt ← _parse_timestamp (utc_now clk)
        (default (VFloat (time_time clk)) (d !! ts_field_of cfg))
        (ts_format_of cfg);
     Ok {| measurement := "sensor_reading";
           sensor_id := if contains_char "/" key then nth 1 (split "/" key) ""
                        else "unknown_sensor";
           dist_cm := dist; bat_volt := bat; solar_volt := sol;
           fb_key := List.last (split "/" key) "";
           time := dt |}).
Proof.
  unfold clean_sensor_data_body. rewrite !get_field_resolved. reflexivity.
Qed.

(** C7 (field resolution order), as the code has it. When a non-empty
    field name is configured, the resolved raw value is the record's value
    under that name and nothing else: null when the record lacks the name
    or holds null under it, without recourse to the fallback chain. When no
    name is configured, it is the first non-null value along the chain,
    null when there is none. A null resolves to the type default: 0 for
    distance, 0.0 for battery and solar; and the fields of a point that
    [clean_sensor_data] returns are parsed from these resolved values. *)
Theorem field_resolution (d : gmap string value) (field_name : option string)
    (fallbacks : list string) :
  _get_field (NDict d) field_name fallbacks
    = Ok (resolved_value d field_name fallbacks)
  ∧ (∀ enc, _parse_distance VNone enc = Ok 0)
  ∧ float_or_zero VNone = Ok fzero
  ∧ (∀ clk key cfg p,
       clean_sensor_data clk key (NDict d) cfg = Some p →
       _parse_distance
         (resolved_value d (field_name_of cfg "distance") _DISTANCE_FALLBACK_FIELDS)
         (dist_encoding_of cfg) = Ok (dist_cm p)
       ∧ float_or_zero
           (resolved_value d (field_name_of cfg "battery") _BATTERY_FALLBACK_FIELDS)
         = Ok (bat_volt p)
       ∧ float_or_zero
           (resolved_value d (field_name_of cfg "solar") _SOLAR_FALLBACK_FIELDS)
         = Ok (solar_volt p)).
Proof.
  split; [apply get_field_resolved|]. split; [done|]. split; [done|].
  intros clk key cfg p. unfold clean_sensor_data.
  rewrite clean_sensor_data_body_dict.
  destruct (_parse_distance _ _) as [dist|]; cbn; [|done].
  destruct (float_or_zero (resolved_value d (field_name_of cfg "battery") _))
    as [bat|]; cbn; [|done].
  destruct (float_or_zero _) as [sol|]; cbn; [|done].
  destruct (_parse_timestamp _ _ _) as [dt|]; cbn; [|done].
  by intros [= <-].
Qed.



(** C4 (default on malformed field values) fails on a battery value that
    is not a number: [float(raw_bat)] is not guarded, its [ValueError]
    reaches the outer [except] of [clean_sensor_data], and the record
    [{dist_cm: 120, bat_volt: "abc", timestamp: 1700000120}] is dropped.
    The same text as a distance or as a timestamp is defaulted, to 0 and to
    the current time. *)
Theorem malformed_battery_drops_record (clk : Clock) :
  float_or_zero (VStr "abc") = Raise ValueError
  ∧ clean_sensor_data clk "/flood1/-Ka002" (NDict rec_bad_battery) None = None
  ∧ _parse_distance (VStr "abc") "numeric" = Ok 0
  ∧ _parse_timestamp (utc_now clk) (VStr "abc") "epoch_auto" = Ok (utc_now clk).
Proof. repeat split; vm_compute; reflexivity. Qed.

End RecordFacts.

Lemma field_resolution_witness :
  _get_field (NDict rec_valid) None _DISTANCE_FALLBACK_FIELDS = Ok (VStr "R0231")
  ∧ _parse_distance
      (resolved_value rec_valid (field_name_of None "distance")
         _DISTANCE_FALLBACK_FIELDS) (dist_encoding_of None) = Ok 231.
Proof.
  split.
  - apply (proj1 (field_resolution rec_valid None _DISTANCE_FALLBACK_FIELDS)).
  - refine (proj1 (proj2 (proj2 (proj2
      (field_resolution rec_valid None _DISTANCE_FALLBACK_FIELDS)))
      clk_a "/flood1/-Ka001" None
      {| measurement := "sensor_reading"; sensor_id := "flood1"; dist_cm := 231;
         bat_volt := float_lit 4; solar_volt := float_lit 5; fb_key := "-Ka001";
         time := 1700000000000000 |} _)).
    vm_compute. reflexivity.
Defined.

Lemma configured_name_skips_fallback_chain :
  _get_field (NDict {[ "dist_cm" := VInt 5 ]}) (Some "range") _DISTANCE_FALLBACK_FIELDS
    ≠ Ok (claimed_value {[ "dist_cm" := VInt 5 ]} (Some "range") _DISTANCE_FALLBACK_FIELDS)
  ∧ claimed_value {[ "dist_cm" := VInt 5 ]} (Some "range") _DISTANCE_FALLBACK_FIELDS = VInt 5
  ∧ _get_field (NDict {[ "dist_cm" := VInt 5 ]}) (Some "range") _DISTANCE_FALLBACK_FIELDS
    = Ok VNone
  ∧ dist_cm <$> clean_sensor_data clk_a "/flood1/-Ka002"
                  (NDict {[ "dist_cm" := VInt 5 ]}) (Some cfg_range) = Some 0.
Proof. repeat split; vm_compute; try reflexivity. discriminate. Qed.



(* ===================================================================== *)
(** * The millisecond threshold *)
(* ===================================================================== *)

Lemma threshold_bits : threshold = S754_finite false 6553600000000000 (-16).
Proof. vm_compute. reflexivity. Qed.

Lemma digits2_pos_bounds (p : positive) :
  2 ^ (Z.pos (digits2_pos p) - 1) ≤ Z.pos p < 2 ^ Z.pos (digits2_pos p).
Proof.
  induction p as [p IH|p IH|]; simpl digits2_pos.
  - rewrite Pos2Z.inj_succ. replace (Z.succ (Z.pos (digits2_pos p)) - 1)
      with (Z.pos (digits2_pos p)) by lia.
    rewrite Z.pow_succ_r by lia.
    assert (Z.pos (digits2_pos p) = Z.succ (Z.pos (digits2_pos p) - 1)) as Heq by lia.
    rewrite Heq at 1. rewrite Z.pow_succ_r in * by lia. lia.
  - rewrite Pos2Z.inj_succ. replace (Z.succ (Z.pos (digits2_pos p)) - 1)
      with (Z.pos (digits2_pos p)) by lia.
    rewrite Z.pow_succ_r by lia.
    assert (Z.pos (digits2_pos p) = Z.succ (Z.pos (digits2_pos p) - 1)) as Heq by lia.
    rewrite Heq at 1. rewrite Z.pow_succ_r in * by lia. lia.
  - simpl. lia.
Qed.

Lemma iter_xO_value (p n : positive) :
  Z.pos (Pos.iter xO p n) = Z.pos p * 2 ^ Z.pos n.
Proof.
  revert p. induction n as [|n IH] using Pos.peano_ind; intros p.
  - rewrite Pos.iter_succ_r || simpl. lia.
  - rewrite Pos.iter_succ, Pos2Z.inj_xO, IH, Pos2Z.inj_succ, Z.pow_succ_r by lia.
    lia.
Qed.

Lemma digits2_iter_xO (p n : positive) :
  digits2_pos (Pos.iter xO p n) = (digits2_pos p + n)%positive.
Proof.
  induction n as [|n IH] using Pos.peano_ind.
  - simpl. lia.
  - rewrite Pos.iter_succ. simpl digits2_pos. rewrite IH. lia.
Qed.

Lemma shr_zero mrs e n : n ≤ 0 → shr mrs e n = (mrs, e).
Proof. destruct n; [done | lia | done]. Qed.

Lemma binary_round_aux_canonical (s : bool) (m : positive) (e : Z) :
  Z.pos (digits2_pos m) = 53 → -1074 ≤ e ≤ 971 →
  binary_round_aux prec emax s (Z.pos m) e loc_Exact = S754_finite s m e.
Proof.
  intros Hd He. unfold binary_round_aux, shr_fexp, fexp, emin, prec, emax.
  simpl Zdigits2. rewrite Hd.
  rewrite shr_zero by lia. simpl shr_m. simpl loc_of_shr_record.
  simpl round_nearest_even. simpl Zdigits2. rewrite Hd.
  rewrite shr_zero by lia. simpl.
  destruct (Z.leb_spec e (1024 - 53)); [done | lia].
Qed.

Lemma binary_round_small (p : positive) :
  Z.pos (digits2_pos p) < 53 →
  binary_round prec emax false p 0
  = S754_finite false (Pos.iter xO p (Z.to_pos (53 - Z.pos (digits2_pos p))))
      (Z.pos (digits2_pos p) - 53).
Proof.
  intros Hd. unfold binary_round, shl_align, fexp, emin, prec, emax.
  replace (Z.max (Z.pos (digits2_pos p) + 0 - 53) (3 - 1024 - 53) - 0)
    with (Z.pos (digits2_pos p) - 53) by lia.
  destruct (Z.pos (digits2_pos p) - 53) as [|k|k] eqn:Hk; try lia.
  replace (Z.max (Z.pos (digits2_pos p) + 0 - 53) (3 - 1024 - 53))
    with (Z.neg k) by lia.
  replace (Z.to_pos (53 - Z.pos (digits2_pos p))) with k by lia.
  apply binary_round_aux_canonical; [|lia].
  rewrite digits2_iter_xO. lia.
Qed.

Lemma binary_round_exact53 (p : positive) :
  Z.pos (digits2_pos p) = 53 →
  binary_round prec emax false p 0 = S754_finite false p 0.
Proof.
  intros Hd. unfold binary_round, shl_align, fexp, emin, prec, emax.
  rewrite Hd. simpl Z.sub. simpl Z.max. cbv iota beta.
  apply binary_round_aux_canonical; [done|lia].
Qed.

Lemma shr_1_m (mrs : shr_record) :
  0 ≤ shr_m mrs → shr_m (shr_1 mrs) = shr_m mrs / 2.
Proof.
  destruct mrs as [m r s]. cbn [shr_m]. intros Hm.
  destruct m as [|[p|p|]|p]; cbn [shr_1 shr_m]; try lia; try done.
  - rewrite Pos2Z.inj_xI. apply Z.div_unique with 1; lia.
  - rewrite Pos2Z.inj_xO. apply Z.div_unique with 0; lia.
Qed.

Lemma iter_shr_1_m (n : positive) (mrs : shr_record) :
  0 ≤ shr_m mrs →
  shr_m (SpecFloat.iter_pos shr_1 n mrs) = shr_m mrs / 2 ^ Z.pos n.
Proof.
  revert mrs. induction n as [n IH|n IH|]; intros mrs Hm;
    simpl SpecFloat.iter_pos.
  - assert (0 < 2 ^ Z.pos n) as Hpow by (apply Z.pow_pos_nonneg; lia).
    assert (0 ≤ shr_m (shr_1 mrs)) by (rewrite shr_1_m by done; apply Z.div_pos; lia).
    assert (0 ≤ shr_m (SpecFloat.iter_pos shr_1 n (shr_1 mrs)))
      by (rewrite IH by done; apply Z.div_pos; lia).
    rewrite !IH, shr_1_m by done.
    rewrite !Z.div_div by lia.
    f_equal. rewrite (Pos2Z.inj_xI n).
    replace (2 * Z.pos n + 1) with (1 + Z.pos n + Z.pos n) by lia.
    rewrite !Z.pow_add_r by lia. lia.
  - assert (0 < 2 ^ Z.pos n) as Hpow by (apply Z.pow_pos_nonneg; lia).
    assert (0 ≤ shr_m (SpecFloat.iter_pos shr_1 n mrs))
      by (rewrite IH by done; apply Z.div_pos; lia).
    rewrite !IH by done.
    rewrite !Z.div_div by lia.
    f_equal. rewrite (Pos2Z.inj_xO n).
    replace (2 * Z.pos n) with (Z.pos n + Z.pos n) by lia.
    rewrite !Z.pow_add_r by lia. lia.
  - rewrite shr_1_m by done. done.
Qed.

Lemma shr_m_of_loc (m : Z) (l : location) : shr_m (shr_record_of_loc m l) = m.
Proof. by destruct l as [|[]]. Qed.

(** Shifting a positive mantissa down to the precision keeps it positive
    and never lowers the exponent; a mantissa above the precision raises
    it. *)
Lemma shr_fexp_positive (p : positive) (e : Z) (l : location) :
  0 ≤ e →
  0 < shr_m (fst (shr_fexp prec emax (Z.pos p) e l))
  ∧ e ≤ snd (shr_fexp prec emax (Z.pos p) e l)
  ∧ (53 < Z.pos (digits2_pos p) →
     snd (shr_fexp prec emax (Z.pos p) e l) = e + Z.pos (digits2_pos p) - 53).
Proof.
  intros He. unfold shr_fexp, fexp, emin, prec, emax. simpl Zdigits2.
  set (d := Z.pos (digits2_pos p)).
  destruct (Z.max (d + e - 53) (3 - 1024 - 53) - e) as [|n|n] eqn:Hn;
    simpl shr; simpl fst; simpl snd; rewrite ?shr_m_of_loc.
  - split; [lia|]. split; lia.
  - rewrite iter_shr_1_m by (rewrite shr_m_of_loc; lia).
    rewrite shr_m_of_loc.
    assert (Z.pos n = d - 53) as Hnd by lia.
    pose proof (digits2_pos_bounds p) as [Hlo _]. fold d in Hlo.
    split; [|split; lia].
    apply Z.div_str_pos. split; [apply Z.pow_pos_nonneg; lia|].
    etrans; [|exact Hlo]. apply Z.pow_le_mono_r; lia.
  - split; [lia|]. split; lia.
Qed.

Lemma round_nearest_even_ge (m : Z) (l : location) : m ≤ round_nearest_even m l.
Proof. destruct l as [|[]]; simpl; try lia. destruct (Z.even m); lia. Qed.

(** An integer of more than 53 bits rounds to a float with a positive
    exponent, or overflows. *)
Lemma binary_round_large (p : positive) :
  53 < Z.pos (digits2_pos p) →
  (∃ m e, 1 ≤ e ∧ binary_round prec emax false p 0 = S754_finite false m e)
  ∨ binary_round prec emax false p 0 = S754_infinity false.
Proof.
  intros Hd. unfold binary_round, shl_align.
  assert (fexp prec emax (Z.pos (digits2_pos p) + 0) - 0 = Z.pos (digits2_pos p) - 53)
    as Hf by (unfold fexp, emin, prec, emax; lia).
  destruct (fexp prec emax (Z.pos (digits2_pos p) + 0) - 0) as [|k|k] eqn:Hk; try lia.
  unfold binary_round_aux.
  destruct (shr_fexp_positive p 0 loc_Exact) as (Hm1 & _ & He1); [lia|].
  specialize (He1 Hd).
  destruct (shr_fexp prec emax (Z.pos p) 0 loc_Exact) as [mrs1 e1].
  simpl in Hm1, He1.
  pose proof (round_nearest_even_ge (shr_m mrs1) (loc_of_shr_record mrs1)) as Hr.
  destruct (round_nearest_even (shr_m mrs1) (loc_of_shr_record mrs1))
    as [|q|q]; try lia.
  destruct (shr_fexp_positive q e1 loc_Exact) as (Hm2 & He2 & _); [lia|].
  destruct (shr_fexp prec emax (Z.pos q) e1 loc_Exact) as [mrs2 e2].
  simpl in Hm2, He2.
  destruct (shr_m mrs2) as [|m2|m2]; try lia.
  destruct (e2 <=? emax - prec); [left|right; done].
  exists m2, e2. split; [lia|done].
Qed.

Lemma binary_round_sign (s : bool) (p : positive) (s' : bool) (m : positive) (e : Z) :
  binary_round prec emax s p 0 = S754_finite s' m e → s' = s.
Proof.
  unfold binary_round, binary_round_aux.
  destruct (shl_align _ _ _) as [mz ez].
  destruct (shr_fexp _ _ _ _ _) as [mrs1 e1].
  destruct (shr_fexp _ _ _ _ _) as [mrs2 e2].
  destruct (shr_m mrs2); [done| |done].
  destruct (e2 <=? emax - prec); [|done]. by intros [= <- _ _].
Qed.

(** [float(z) > 1e11] holds exactly when [z > 10^11]: rounding an integer
    to the nearest float does not move it across the threshold. *)
Lemma float_of_Z_above_threshold (z : Z) (f : float) :
  float_of_Z z = Ok f → fgt f threshold = (100000000000 <? z).
Proof.
  unfold float_of_Z, binary_normalize. rewrite threshold_bits.
  destruct z as [|p|p].
  - by intros [= <-].
  - destruct (Z.lt_trichotomy (Z.pos (digits2_pos p)) 53) as [Hd|[Hd|Hd]].
    + rewrite binary_round_small by done. intros [= <-].
      unfold fgt, SFltb, SFcompare.
      pose proof (digits2_pos_bounds p) as [Hlo Hhi].
      destruct (Z.compare_spec (-16) (Z.pos (digits2_pos p) - 53)) as [He|He|He].
      * assert (Z.pos (digits2_pos p) = 37) as H37 by lia.
        rewrite H37 in *. change (Z.to_pos (53 - 37)) with 16%positive.
        change (Pos.compare_cont Eq 6553600000000000
                  (Pos.iter xO p 16)) with
          (Pos.compare 6553600000000000 (Pos.iter xO p 16)).
        rewrite Pos2Z.inj_compare, iter_xO_value.
        change (Z.pos 6553600000000000) with (100000000000 * 2 ^ 16).
        destruct (Z.compare_spec (100000000000 * 2 ^ 16) (Z.pos p * 2 ^ Z.pos 16));
          destruct (Z.ltb_spec 100000000000 (Z.pos p)); try done; lia.
      * assert (2 ^ 37 ≤ 2 ^ (Z.pos (digits2_pos p) - 1))
          by (apply Z.pow_le_mono_r; lia).
        destruct (Z.ltb_spec 100000000000 (Z.pos p)); [done|lia].
      * assert (2 ^ Z.pos (digits2_pos p) ≤ 2 ^ 36)
          by (apply Z.pow_le_mono_r; lia).
        destruct (Z.ltb_spec 100000000000 (Z.pos p)); [lia|done].
    + rewrite binary_round_exact53 by done. intros [= <-].
      pose proof (digits2_pos_bounds p) as [Hlo _]. rewrite Hd in Hlo.
      destruct (Z.ltb_spec 100000000000 (Z.pos p)); [done|lia].
    + pose proof (digits2_pos_bounds p) as [Hlo _].
      assert (2 ^ 53 ≤ 2 ^ (Z.pos (digits2_pos p) - 1))
        by (apply Z.pow_le_mono_r; lia).
      destruct (binary_round_large p Hd) as [(m & e & He & ->)| ->]; [|done].
      intros [= <-]. unfold fgt, SFltb, SFcompare.
      destruct (Z.compare_spec (-16) e); lia.
  - destruct (binary_round prec emax true p 0) as [s'|s'| |s' m e] eqn:Hr;
      try (by intros [= <-]).
    apply binary_round_sign in Hr as ->. by intros [= <-].
Qed.

Section EpochFacts.
Context {rt : Runtime}.

(** C8 (the millisecond boundary of epoch_auto). A numeric timestamp [v],
    of float value [ts], is divided by 1000 under "epoch_auto" exactly when
    [ts > 1e11], which for an integer [v] is exactly [v > 10^11];
    "epoch_ms" always divides and "epoch_s" never does. 150000000000 is
    read as milliseconds and 1700000000 as seconds; 10^11 itself is read
    as seconds and 10^11 + 1 as milliseconds. *)
Theorem epoch_auto_boundary (now : datetime) (v : value) (ts : float) :
  is_number v = true → py_float v = Ok ts →
  _parse_timestamp now v "epoch_auto"
    = fromtimestamp_or_now now
        (if fgt ts threshold then fdiv ts (float_lit 1000) else ts)
  ∧ _parse_timestamp now v "epoch_ms"
    = fromtimestamp_or_now now (fdiv ts (float_lit 1000))
  ∧ _parse_timestamp now v "epoch_s" = fromtimestamp_or_now now ts
  ∧ (∀ z, v = VInt z → fgt ts threshold = (100000000000 <? z))
  ∧ _parse_timestamp now (VInt 150000000000) "epoch_auto"
    = fromtimestamp_or_now now (float_lit 150000000)
  ∧ _parse_timestamp now (VInt 1700000000) "epoch_auto"
    = fromtimestamp_or_now now (float_lit 1700000000)
  ∧ _parse_timestamp now (VInt 100000000000) "epoch_auto"
    = fromtimestamp_or_now now (float_lit 100000000000)
  ∧ _parse_timestamp now (VInt 100000000001) "epoch_auto"
    = fromtimestamp_or_now now (fdiv (float_lit 100000000001) (float_lit 1000)).
Proof.
  intros Hnum Hts.
  assert (∀ fmt, String.eqb fmt "iso" = false →
            _parse_timestamp now v fmt
            = fromtimestamp_or_now now (epoch_seconds fmt ts)) as Hpt.
  { intros fmt Hfmt. unfold _parse_timestamp. rewrite Hfmt, Hts.
    by destruct v. }
  repeat split.
  - by rewrite Hpt.
  - by rewrite Hpt.
  - by rewrite Hpt.
  - intros z ->. by apply float_of_Z_above_threshold.
Qed.

End EpochFacts.

Lemma epoch_auto_boundary_witness :
  _parse_timestamp 0 (VInt 150000000000) "epoch_auto" = Ok 150000000000000
  ∧ _parse_timestamp 0 (VInt 1700000000) "epoch_auto" = Ok 1700000000000000.
Proof.
  split.
  - rewrite (proj1 (epoch_auto_boundary 0 (VInt 150000000000)
               (float_lit 150000000000) eq_refl eq_refl)).
    vm_compute. reflexivity.
  - rewrite (proj1 (epoch_auto_boundary 0 (VInt 1700000000)
               (float_lit 1700000000) eq_refl eq_refl)).
    vm_compute. reflexivity.
Defined.

(* ===================================================================== *)
(** * The telemetry polling loop *)
(* ===================================================================== *)

Section BridgeFacts.
Context {rt : Runtime}.

Lemma insert_sorted_elem (k x : string) (l : list string) :
  x ∈ insert_sorted k l ↔ x = k ∨ x ∈ l.
Proof.
  induction l as [|y l IH]; simpl.
  - rewrite list_elem_of_singleton, elem_of_nil. tauto.
  - destruct (String.leb k y); rewrite !elem_of_cons, ?IH; tauto.
Qed.

Lemma sorted_elem (x : string) (l : list string) : x ∈ sorted l ↔ x ∈ l.
Proof.
  unfold sorted. induction l as [|y l IH]; simpl; [done|].
  rewrite insert_sorted_elem, IH, elem_of_cons. tauto.
Qed.

Lemma items_get_elem (items : list (string * node)) (key : string) :
  key ∈ map fst items → ∃ r, items_get items key = Ok r.
Proof.
  induction items as [|[k r] items IH]; simpl; [by intros ?%elem_of_nil|].
  destruct (String.eqb_spec k key) as [->|Hne]; [by eauto|].
  intros [?|?]%elem_of_cons; [congruence|auto].
Qed.

Lemma page_loop_spec (w : World) (cfg : option SensorCfg) (sensor : string)
    (items : list (string * node)) (last_key : option string)
    (keys : list string) (points : list Point) (new_last_key : option string) :
  (∀ k, k ∈ keys → k ∈ map fst items) →
  page_loop w cfg sensor items last_key keys points new_last_key
  = Ok ((points ++ omap (normalize_key w cfg sensor items)
                     (filter (λ k, is_cursor k last_key = false) keys))%list,
        from_option Some new_last_key
          (last (filter (λ k, is_cursor k last_key = false) keys))).
Proof.
  revert points new_last_key.
  induction keys as [|key rest IH]; intros points new_last_key Hkeys; simpl.
  - by rewrite app_nil_r.
  - assert (∀ k, k ∈ rest → k ∈ map fst items) as Hrest
      by (intros k Hk; apply Hkeys; by right).
    rewrite filter_cons. destruct (is_cursor key last_key) eqn:Hc.
    + rewrite decide_False by done. by apply IH.
    + rewrite decide_True by done.
      destruct (items_get_elem items key) as [r Hr]; [apply Hkeys; by left|].
      rewrite Hr. cbn [mbind result_bind]. rewrite IH by done.
      cbn [omap list_omap]. unfold normalize_key at 2. rewrite Hr.
      assert (from_option Some (Some key)
                (last (filter (λ k, is_cursor k last_key = false) rest))
              = from_option Some new_last_key
                  (last (key :: filter (λ k, is_cursor k last_key = false) rest)))
        as ->.
      { destruct (filter _ rest) as [|k' l']; [done|].
        rewrite last_cons_cons.
        destruct (last (k' :: l')) eqn:Hlast; [done|].
        by apply last_None in Hlast. }
      destruct r as [d|v]; [|done].
      destruct (clean_sensor_data _ _ _ _); [|done].
      by rewrite <- app_assoc.
Qed.

Lemma process_page_spec (w : World) (sensor_configs : list (string * SensorCfg))
    (sensor : string) (items : list (string * node)) (last_key : option string) :
  process_page w sensor_configs sensor items last_key
  = Ok (page_points w sensor_configs sensor items last_key,
        from_option Some last_key (last (new_keys items last_key))).
Proof.
  unfold process_page. rewrite page_loop_spec; [done|].
  intros k. by rewrite sorted_elem.
Qed.



Lemma save_state_cursors w c st : cursors (save_state w c st) = cursors st.
Proof. unfold save_state. by destruct (file_write w c). Qed.

(** What [commit_page] can do: nothing, a write that fails, or a write
    that is acknowledged and then, only then, the cursor and the file. *)
Lemma commit_page_outcome (w : World) (sensor : string) (points : list Point)
    (new_last_key : option string) (st : Bridge.State) :
  let st' := commit_page w sensor points new_last_key st in
  (cursors st' = cursors st ∧ state_file st' = state_file st
   ∧ (points = [] ∨ ∃ e, influx_write w points = Raise e)
   ∧ (Bridge.trace st' = Bridge.trace st
      ∨ Bridge.trace st' = (Bridge.trace st ++ [SinkWrite points false])%list))
  ∨ (points ≠ [] ∧ (∃ u, influx_write w points = Ok u)
     ∧ cursors st' = <[sensor := new_last_key]> (cursors st)
     ∧ ∃ saved, Bridge.trace st'
                = (Bridge.trace st ++
                   [SinkWrite points true;
                    FileSave (<[sensor := new_last_key]> (cursors st)) saved])%list
         ∧ state_file st'
           = if saved then Some (<[sensor := new_last_key]> (cursors st))
             else state_file st).
Proof.
  unfold commit_page. destruct points as [|pt points]; [left; auto|].
  destruct (influx_write w (pt :: points)) as [u|e] eqn:Hw.
  - right. split; [done|]. split; [eauto|].
    unfold save_state. simpl.
    destruct (file_write w _); simpl.
    + split; [done|]. exists true. by rewrite <- app_assoc.
    + split; [done|]. exists false. by rewrite <- app_assoc.
  - left. simpl. eauto 10.
Qed.

(** The same for one sensor's turn in a cycle. *)
Lemma poll_sensor_outcome (w : World) (sensor_configs : list (string * SensorCfg))
    (sensor : string) (st : Bridge.State) :
  let st' := poll_sensor w sensor_configs sensor st in
  let q := build_query (cursor_of st sensor) in
  (cursors st' = cursors st ∧ state_file st' = state_file st
   ∧ ∀ points, SinkWrite points true ∉ drop (length (Bridge.trace st)) (Bridge.trace st'))
  ∨ (∃ items points new_last_key saved,
       fb_get w sensor q = Ok (SDict items)
       ∧ process_page w sensor_configs sensor items (cursor_of st sensor)
         = Ok (points, new_last_key)
       ∧ points ≠ [] ∧ (∃ u, influx_write w points = Ok u)
       ∧ cursors st' = <[sensor := new_last_key]> (cursors st)
       ∧ Bridge.trace st'
         = (Bridge.trace st ++
            [SourceGet sensor q; SinkWrite points true;
             FileSave (<[sensor := new_last_key]> (cursors st)) saved])%list
       ∧ state_file st'
         = if saved then Some (<[sensor := new_last_key]> (cursors st))
           else state_file st).
Proof.
  unfold poll_sensor. fold (cursor_of st sensor).
  set (q := build_query (cursor_of st sensor)).
  set (st1 := Bridge.log (SourceGet sensor q) st).
  assert (∀ points, SinkWrite points true
            ∉ drop (length (Bridge.trace st)) (Bridge.trace st1)) as Hst1.
  { intros points. simpl. rewrite drop_app_length.
    rewrite list_elem_of_singleton. discriminate. }
  destruct (fb_get w sensor q) as [[items|]|e] eqn:Hget; [|by left..].
  destruct items as [|item items]; [by left|].
  destruct (_ && _); [by left|].
  set (page := item :: items) in *.
  destruct (process_page w sensor_configs sensor page (cursor_of st sensor))
    as [[points new_last_key]|e] eqn:Hpage; [|by left].
  destruct (commit_page_outcome w sensor points new_last_key st1)
    as [(Hc & Hf & _ & Ht)|(Hne & Hw & Hc & saved & Ht & Hf)].
  - left. split; [done|]. split; [done|]. intros pts.
    destruct Ht as [-> | ->]; [done|]. simpl.
    rewrite <- app_assoc, drop_app_length. simpl.
    rewrite !elem_of_cons, elem_of_nil. intros [|[|]]; discriminate || done.
  - right. exists page, points, new_last_key, saved.
    repeat split; try done. rewrite Ht. simpl. by rewrite <- app_assoc.
Qed.

(** A sensor's turn leaves the cursors of the other sensors alone. *)
Lemma poll_sensor_other (w : World) (sensor_configs : list (string * SensorCfg))
    (sensor other : string) (st : Bridge.State) :
  other ≠ sensor →
  cursors (poll_sensor w sensor_configs sensor st) !! other = cursors st !! other.
Proof.
  intros Hne.
  destruct (poll_sensor_outcome w sensor_configs sensor st)
    as [(-> & _)|(items & points & nl & saved & _ & _ & _ & _ & -> & _)]; [done|].
  by rewrite lookup_insert_ne.
Qed.

Lemma poll_sensor_sink_down (w : World) (sensor_configs : list (string * SensorCfg))
    (sensor : string) (st : Bridge.State) :
  (∀ points, ∃ e, influx_write w points = Raise e) →
  cursors (poll_sensor w sensor_configs sensor st) = cursors st
  ∧ state_file (poll_sensor w sensor_configs sensor st) = state_file st.
Proof.
  intros Hdown.
  destruct (poll_sensor_outcome w sensor_configs sensor st)
    as [(? & ? & _)|(items & points & nl & saved & _ & _ & _ & [u Hu] & _)]; [done|].
  destruct (Hdown points) as [e He]. congruence.
Qed.

Lemma poll_cycles_sink_down (n : nat) (w : World)
    (sensor_configs : list (string * SensorCfg)) (st : Bridge.State) :
  (∀ points, ∃ e, influx_write w points = Raise e) →
  cursors (poll_cycles n w sensor_configs st) = cursors st
  ∧ state_file (poll_cycles n w sensor_configs st) = state_file st.
Proof.
  intros Hdown. revert st. induction n as [|n IH]; intros st; simpl; [done|].
  destruct (IH (poll_cycle w sensor_configs st)) as [-> ->].
  unfold poll_cycle. generalize (SENSORS sensor_configs). intros sensors.
  revert st. induction sensors as [|s sensors IHs]; intros st; simpl; [done|].
  destruct (IHs (poll_sensor w sensor_configs s st)) as [-> ->].
  by apply poll_sensor_sink_down.
Qed.

(** C1 (at-least-once delivery). In a sensor's turn of a polling cycle the
    cursor and the state file either stay as they were, or the batched
    write of the page was acknowledged and the cursor was set, and saved,
    after it. When the write of the page raises, the cursor and the file
    are unchanged, so the next query is the same and the source answers
    the same page. While every write raises, no number of cycles moves the
    cursor or the file. *)
Theorem write_failure_keeps_cursor (w : World)
    (sensor_configs : list (string * SensorCfg)) (sensor : string)
    (st : Bridge.State) :
  let st' := poll_sensor w sensor_configs sensor st in
  let q := build_query (cursor_of st sensor) in
  (* the cursor and the file move only behind an acknowledged write *)
  ((cursors st' = cursors st ∧ state_file st' = state_file st)
   ∨ (∃ points new_last_key saved,
        (∃ u, influx_write w points = Ok u)
        ∧ cursors st' = <[sensor := new_last_key]> (cursors st)
        ∧ Bridge.trace st'
          = (Bridge.trace st ++
             [SourceGet sensor q; SinkWrite points true;
              FileSave (<[sensor := new_last_key]> (cursors st)) saved])%list))
  (* a write that fails leaves both as they were, and the next query is
     the same one *)
  ∧ (∀ items points new_last_key e,
       fb_get w sensor q = Ok (SDict items) →
       process_page w sensor_configs sensor items (cursor_of st sensor)
         = Ok (points, new_last_key) →
       influx_write w points = Raise e →
       cursors st' = cursors st ∧ state_file st' = state_file st
       ∧ build_query (cursor_of st' sensor) = q
       ∧ fb_get w sensor (build_query (cursor_of st' sensor)) = Ok (SDict items))
  (* while the sink is down nothing moves, however many cycles pass *)
  ∧ ((∀ points, ∃ e, influx_write w points = Raise e) →
     ∀ n, cursors (poll_cycles n w sensor_configs st) = cursors st
          ∧ state_file (poll_cycles n w sensor_configs st) = state_file st).
Proof.
  intros st' q. split; [|split].
  - destruct (poll_sensor_outcome w sensor_configs sensor st)
      as [(? & ? & _)|(items & points & nl & saved & _ & _ & _ & Hw & Hc & Ht & _)];
      [by left|].
    right. exists points, nl, saved. done.
  - intros items points nl e Hget Hpage Hw.
    assert (cursors st' = cursors st ∧ state_file st' = state_file st) as [Hc Hf].
    { destruct (poll_sensor_outcome w sensor_configs sensor st)
        as [(? & ? & _)|(items' & points' & nl' & saved & Hget' & Hpage' & _ & [u Hu] & _)];
        [done|].
      fold q in Hget'. rewrite Hget in Hget'. injection Hget' as <-.
      rewrite Hpage in Hpage'. injection Hpage' as <- <-. congruence. }
    assert (cursor_of st' sensor = cursor_of st sensor) as Hcur
      by (unfold cursor_of; by rewrite Hc).
    rewrite Hcur. done.
  - intros Hdown n. by apply poll_cycles_sink_down.
Qed.


End BridgeFacts.

Lemma write_failure_keeps_cursor_witness :
  cursors (poll_sensor (world_of page_scenario false None) configs "flood1" st_Ka001)
  = cursors st_Ka001
  ∧ cursors (poll_cycles 3 (world_of page_scenario false None) configs st_Ka001)
    = cursors st_Ka001.
Proof.
  split.
  - refine (proj1 (proj1 (proj2 (write_failure_keeps_cursor
      (world_of page_scenario false None) configs "flood1" st_Ka001))
      page_scenario
      (page_points (world_of page_scenario false None) configs "flood1"
         page_scenario (Some "-Ka001"))
      (Some "-Ka003") OtherError _ _ _)); vm_compute; reflexivity.
  - refine (proj1 (proj2 (proj2 (write_failure_keeps_cursor
      (world_of page_scenario false None) configs "flood1" st_Ka001)) _ 3%nat)).
    intros points. exists OtherError. reflexivity.
Defined.



(* ===================================================================== *)
(** * Cursor recovery *)
(* ===================================================================== *)

Lemma resolve_cursor_spec (w : World) (saved_state : gmap string (option string))
    (sensor : string) (st : Bridge.State) :
  cursors (resolve_cursor w saved_state sensor st)
    = <[sensor := tiered_cursor w saved_state sensor]> (cursors st)
  ∧ state_file (resolve_cursor w saved_state sensor st) = state_file st
  ∧ Bridge.trace (resolve_cursor w saved_state sensor st)
    = (Bridge.trace st ++ recovery_calls w saved_state sensor)%list.
Proof.
  unfold resolve_cursor, tiered_cursor, recovery_calls, newest_source_key.
  destruct (saved_state !! sensor) as [v|]; simpl.
  { by rewrite app_nil_r. }
  destruct (truthy (fetch_last_key_from_influx w sensor)); simpl; [done|].
  destruct (fb_get w sensor (LimitToLast 1)) as [[[|[k r] items]|]|e]; simpl;
    by rewrite <- app_assoc.
Qed.

Lemma resolve_all_cursors (w : World) (saved_state : gmap string (option string))
    (sensors : list string) (st : Bridge.State) (sensor : string) :
  cursors (fold_left (λ st s, resolve_cursor w saved_state s st) sensors st)
    !! sensor
  = if decide (sensor ∈ sensors) then Some (tiered_cursor w saved_state sensor)
    else cursors st !! sensor.
Proof.
  revert st. induction sensors as [|s sensors IH]; intros st; simpl; [done|].
  rewrite IH. destruct (resolve_cursor_spec w saved_state s st) as (-> & _).
  destruct (decide (sensor ∈ sensors)) as [Hin|Hin].
  - rewrite decide_True; [done|by right].
  - destruct (decide (sensor = s)) as [->|Hne].
    + rewrite decide_True by by left. by rewrite lookup_insert_eq.
    + rewrite decide_False by (rewrite elem_of_cons; tauto).
      by rewrite lookup_insert_ne.
Qed.



(* ===================================================================== *)
(** * The media poller *)
(* ===================================================================== *)

Lemma seen_update_seen (tk : string) (f : list Media.pyobj → list Media.pyobj)
    (st : Media.State) :
  Media.seen tk (Media.update_seen tk f st) = f (Media.seen tk st).
Proof. unfold Media.seen at 1, Media.update_seen. simpl. by rewrite lookup_insert_eq. Qed.

Lemma set_discard_point_keeps_name (name : string) (pt : Media.ImagePoint)
    (s : list Media.pyobj) :
  Media.OStr name ∈ Media.set_discard (Media.OPoint pt) s ↔ Media.OStr name ∈ s.
Proof.
  unfold Media.set_discard. rewrite list_elem_of_filter.
  split; [tauto|]. intros H. split; [discriminate|done].
Qed.

(** Discarding the points of a batch takes no name out of the seen-set. *)
Lemma discard_points_keeps_names (w : Media.World) (tk : string)
    (pts : list Media.ImagePoint) (st : Media.State) (name : string) :
  Media.OStr name ∈ Media.seen tk st →
  Media.OStr name ∈ Media.seen tk (Media.discard_points w tk pts st).2.
Proof.
  revert st. induction pts as [|pt pts IH]; intros st Hin; simpl; [done|].
  destruct (Media.point_hashable w); [|done].
  apply IH. rewrite seen_update_seen. by apply set_discard_point_keeps_name.
Qed.

(** Whatever the batched write answers, a name in the seen-set stays. *)
Lemma write_points_keeps_names (w : Media.World) (tk : string)
    (pts : list Media.ImagePoint) (st : Media.State) (name : string) :
  Media.OStr name ∈ Media.seen tk st →
  Media.OStr name ∈ Media.seen tk (Media.write_points w tk pts st).2.
Proof.
  intros Hin. unfold Media.write_points. destruct pts as [|pt pts]; [done|].
  destruct (Media.write w (pt :: pts)); [done|].
  by apply discard_points_keeps_names.
Qed.

(** A blob whose name is in the seen-set adds no point and makes no call. *)
Lemma ingest_blob_seen (w : Media.World) (sensor_id view_name tk : string)
    (view_cfg : Media.ViewCfg) (blob : Media.Blob)
    (new_points : list Media.ImagePoint) (st : Media.State) :
  Media.OStr (Media.blob_name blob) ∈ Media.seen tk st →
  Media.ingest_blob w sensor_id view_name tk view_cfg blob new_points st
  = (Ok new_points, st).
Proof.
  intros Hin. unfold Media.ingest_blob.
  destruct (ends_with "/" (Media.blob_name blob)); [done|].
  unfold Media.set_in. by rewrite bool_decide_eq_true_2.
Qed.

(** A blob that is published and dated is in the seen-set at once, before
    any write. *)
Lemma ingest_blob_published (w : Media.World) (sensor_id view_name tk : string)
    (view_cfg : Media.ViewCfg) (blob : Media.Blob)
    (new_points : list Media.ImagePoint) (st : Media.State)
    (url : string) (ts : datetime) :
  ends_with "/" (Media.blob_name blob) = false →
  Media.OStr (Media.blob_name blob) ∉ Media.seen tk st →
  Media.fnmatch w (lower_str (Media.basename (Media.blob_name blob)))
    (lower_str (default "*.jpg" (Media.view_filename_pattern view_cfg))) = true →
  Media.make_public w (Media.blob_name blob) = Ok url →
  Media._get_blob_timestamp w blob
    (default "blob" (Media.view_timestamp_source view_cfg))
    (Media.view_timestamp_regex view_cfg)
    (default "" (Media.view_timestamp_format view_cfg)) = Ok ts →
  ∃ st',
    Media.ingest_blob w sensor_id view_name tk view_cfg blob new_points st
    = (Ok (new_points ++
           [ {| Media.img_sensor_id := sensor_id; Media.img_view := view_name;
                Media.image_url := url;
                Media.img_filename := Media.basename (Media.blob_name blob);
                Media.img_time := ts |} ])%list, st')
    ∧ Media.OStr (Media.blob_name blob) ∈ Media.seen tk st'
    ∧ Media.trace st'
      = (Media.trace st ++ [Media.Publish (Media.blob_name blob) true])%list.
Proof.
  intros Hdir Hnew Hpat Hpub Hts. unfold Media.ingest_blob.
  rewrite Hdir. unfold Media.set_in at 1. rewrite bool_decide_eq_false_2 by done.
  rewrite Hpat, Hpub, Hts. simpl. eexists. split; [done|].
  rewrite seen_update_seen. split; [|done].
  unfold Media.set_add. destruct (Media.set_in _ _) eqn:Hin.
  - by apply bool_decide_eq_true_1 in Hin.
  - rewrite elem_of_app, list_elem_of_singleton. by right.
Qed.

(** C5 (seen-set lifecycle) fails where the batched write raises: the
    [except] clause discards the point objects, not the blob names, so the
    names stay in the seen-set. With one image in the bucket and the sink
    down, the image is published, its name is in the seen-set after the
    cycle, and the next cycle, with the sink up again, passes over it: it
    is never written. This holds whether point objects are hashable or
    not, as no discard of points takes a name out. *)
Theorem failed_write_leaves_names_seen (hashable : bool) :
  let down := Media.poll_cycle (media_world false hashable) media_configs media_st0 in
  let again := Media.poll_cycle (media_world true hashable) media_configs down in
  (* the first cycle publishes the image and the write of its pointer fails *)
  (∃ pt, Media.trace down
         = [Media.Listing "cam/front/" true; Media.Publish "cam/front/a.jpg" true;
            Media.Write [pt] false])
  (* the name is still in the seen-set *)
  ∧ Media.seen "flood1/front" down = [Media.OStr "cam/front/a.jpg"]
  (* and the next cycle, with the sink up again, lists the image and
     passes over it: no publish, no pointer, no write *)
  ∧ Media.trace again = (Media.trace down ++ [Media.Listing "cam/front/" true])%list
  ∧ Media.seen "flood1/front" again = [Media.OStr "cam/front/a.jpg"]
  (* as the discard of points can take no name out *)
  ∧ (∀ w tk pts st name e,
       Media.write w pts = Raise e →
       Media.OStr name ∈ Media.seen tk st →
       Media.OStr name ∈ Media.seen tk (Media.write_points w tk pts st).2).
Proof.
  intros down again. subst down again.
  destruct hashable; (repeat split; [eexists; vm_compute; reflexivity
    | vm_compute; reflexivity .. | ]);
    intros w tk pts st name e _ Hin; by apply write_points_keeps_names.
Qed.

Lemma failed_write_leaves_names_seen_witness :
  Media.OStr "cam/front/a.jpg"
  ∈ Media.seen "flood1/front"
      (Media.write_points (media_world false true) "flood1/front" []
         (Media.poll_cycle (media_world true true) media_configs media_st0)).2.
Proof.
  refine (proj2 (proj2 (proj2 (proj2 (failed_write_leaves_names_seen true))))
    (media_world false true) "flood1/front" []
    (Media.poll_cycle (media_world true true) media_configs media_st0)
    "cam/front/a.jpg" OtherError _ _).
  - reflexivity.
  - vm_compute. left.
Defined.

(* ===================================================================== *)
(** * Further properties of the code *)
(* ===================================================================== *)

(** ** The order of the keys *)

Lemma string_leb_refl (s : string) : String.leb s s = true.
Proof.
  unfold String.leb. induction s as [|a s IH]; simpl; [done|].
  unfold Ascii.compare. by rewrite N.compare_refl.
Qed.

Lemma string_leb_trans (s1 s2 s3 : string) :
  String.leb s1 s2 = true → String.leb s2 s3 = true → String.leb s1 s3 = true.
Proof.
  unfold String.leb. revert s2 s3.
  induction s1 as [|a s1 IH]; intros [|b s2] [|c s3]; simpl; try done.
  unfold Ascii.compare.
  destruct (N.compare_spec (N_of_ascii a) (N_of_ascii b)),
    (N.compare_spec (N_of_ascii b) (N_of_ascii c)),
    (N.compare_spec (N_of_ascii a) (N_of_ascii c));
    try done; try lia.
  apply IH.
Qed.

Lemma key_le_trans : Transitive key_le.
Proof. intros s1 s2 s3. apply string_leb_trans. Qed.

Lemma key_le_antisymm : AntiSymm eq key_le.
Proof. intros s1 s2. apply String.leb_antisym. Qed.

Lemma insert_sorted_perm (k : string) (l : list string) :
  insert_sorted k l ≡ₚ k :: l.
Proof.
  induction l as [|x l IH]; simpl; [done|].
  destruct (String.leb k x); [done|]. rewrite IH. apply Permutation_swap.
Qed.

Lemma sorted_perm (l : list string) : sorted l ≡ₚ l.
Proof.
  unfold sorted. induction l as [|x l IH]; simpl; [done|].
  by rewrite insert_sorted_perm, IH.
Qed.

Lemma insert_sorted_Sorted (k : string) (l : list string) :
  Sorted key_le l → Sorted key_le (insert_sorted k l).
Proof.
  induction 1 as [|x l Hl IH Hx]; simpl.
  - by repeat constructor.
  - destruct (String.leb k x) eqn:Hk.
    + by repeat constructor.
    + assert (key_le x k) as Hxk
        by (destruct (String.leb_total k x); [congruence|done]).
      constructor; [done|].
      destruct Hx as [|y l' Hy]; simpl; [by constructor|].
      destruct (String.leb k y); by constructor.
Qed.

Lemma sorted_Sorted (l : list string) : Sorted key_le (sorted l).
Proof.
  unfold sorted. induction l as [|x l IH]; simpl; [constructor|].
  by apply insert_sorted_Sorted.
Qed.

(** The last of a sorted list is above all the others. *)
Lemma last_sorted_max (l : list string) (k : string) :
  last (sorted l) = Some k → k ∈ l ∧ ∀ k', k' ∈ l → key_le k' k.
Proof.
  intros Hlast.
  pose proof (sorted_Sorted l) as Hs. apply (@Sorted_StronglySorted _ key_le key_le_trans) in Hs.
  apply last_Some in Hlast as [l' Hl'].
  split.
  - rewrite <- (sorted_perm l), Hl', elem_of_app, list_elem_of_singleton. by right.
  - intros k' Hk'. rewrite <- (sorted_perm l), Hl' in Hk'.
    rewrite Hl' in Hs. apply elem_of_app in Hk' as [Hin|Hin].
    + clear -Hs Hin. induction l' as [|y l' IH]; [by apply elem_of_nil in Hin|].
      apply StronglySorted_inv in Hs as [Hs Hy].
      apply elem_of_cons in Hin as [->|Hin]; [|by apply IH].
      rewrite Forall_app, Forall_singleton in Hy. tauto.
    + apply list_elem_of_singleton in Hin as ->. apply string_leb_refl.
Qed.

Lemma Sorted_last_max (l : list string) (k : string) :
  Sorted key_le l → last l = Some k → ∀ k', k' ∈ l → key_le k' k.
Proof.
  intros Hs Hlast. apply (@Sorted_StronglySorted _ key_le key_le_trans) in Hs.
  apply last_Some in Hlast as [l' ->]. intros k' [Hin|Hin]%elem_of_app.
  - induction l' as [|y l' IH]; [by apply elem_of_nil in Hin|].
    apply StronglySorted_inv in Hs as [Hs Hy].
    apply elem_of_cons in Hin as [->|Hin]; [|by apply IH].
    rewrite Forall_app, Forall_singleton in Hy. tauto.
  - apply list_elem_of_singleton in Hin as ->. apply string_leb_refl.
Qed.

Lemma new_keys_Sorted (items : list (string * node)) (last_key : option string) :
  Sorted key_le (new_keys items last_key).
Proof.
  unfold new_keys.
  pose proof (sorted_Sorted (map fst items)) as Hsorted.
  apply (@Sorted_StronglySorted _ key_le key_le_trans) in Hsorted.
  apply StronglySorted_Sorted.
  induction Hsorted as [|x l Hl IH Hx]; [constructor|].
  rewrite filter_cons. destruct (decide _); [|done].
  constructor; [done|]. apply Forall_forall. intros y [_ Hy]%list_elem_of_filter.
  by apply (proj1 (Forall_forall _ _) Hx).
Qed.

Lemma new_keys_NoDup (items : list (string * node)) (last_key : option string) :
  NoDup (map fst items) → NoDup (new_keys items last_key).
Proof.
  intros Hnd. unfold new_keys. apply NoDup_filter. by rewrite sorted_perm.
Qed.

(** ** Paths and their parts *)

Lemma str_app_cons (c : ascii) (s t : string) :
  String c s +:+ t = String c (s +:+ t).
Proof. reflexivity. Qed.

Lemma str_app_nil_l (s : string) : "" +:+ s = s.
Proof. reflexivity. Qed.

Lemma str_app_assoc (s1 s2 s3 : string) :
  (s1 +:+ s2) +:+ s3 = s1 +:+ (s2 +:+ s3).
Proof.
  induction s1 as [|c s1 IH]; [done|]. by rewrite !str_app_cons, IH.
Qed.

Lemma str_app_nil_r (s : string) : s +:+ "" = s.
Proof. induction s as [|c s IH]; [done|]. by rewrite str_app_cons, IH. Qed.

Lemma rev_str_acc (acc s : string) : rev_str acc s = rev_str "" s +:+ acc.
Proof.
  revert acc. induction s as [|c s IH]; intros acc; simpl; [done|].
  rewrite (IH (String c acc)), (IH (String c "")).
  by rewrite str_app_assoc.
Qed.

Lemma split_on_no_sep (sep : ascii) (cur s : string) :
  contains_char sep s = false →
  split_on sep cur s = [rev_str "" cur +:+ s].
Proof.
  revert cur. induction s as [|c s IH]; intros cur; simpl.
  - by rewrite str_app_nil_r.
  - intros [Hc Hs]%orb_false_iff. rewrite Ascii.eqb_sym, Hc, IH by done.
    simpl. by rewrite (rev_str_acc (String c "")), str_app_assoc.
Qed.

Lemma split_on_sep (sep : ascii) (cur s t : string) :
  contains_char sep s = false →
  split_on sep cur (s +:+ String sep t)
  = (rev_str "" cur +:+ s) :: split_on sep "" t.
Proof.
  revert cur. induction s as [|c s IH]; intros cur; simpl.
  - by rewrite Ascii.eqb_refl, str_app_nil_r.
  - intros [Hc Hs]%orb_false_iff. rewrite Ascii.eqb_sym, Hc, IH by done.
    simpl. by rewrite (rev_str_acc (String c "")), str_app_assoc.
Qed.

Lemma contains_char_app (c : ascii) (s t : string) :
  contains_char c (s +:+ t) = contains_char c s || contains_char c t.
Proof.
  induction s as [|d s IH]; simpl; [done|]. by rewrite IH, orb_assoc.
Qed.

(** The path [/sensor/key] splits into its two parts. *)
Lemma split_path (sensor key : string) :
  contains_char "/" sensor = false → contains_char "/" key = false →
  split "/" ("/" +:+ sensor +:+ "/" +:+ key) = [""; sensor; key].
Proof.
  intros Hs Hk.
  change ("/" +:+ sensor +:+ "/" +:+ key)
    with (String "/" (sensor +:+ String "/" key)).
  unfold split. cbn [split_on Ascii.eqb Bool.eqb rev_str].
  rewrite (split_on_sep "/" "" sensor key Hs), (split_on_no_sep "/" "" key Hk).
  done.
Qed.

Section PathFacts.
Context {rt : Runtime}.

(** The point of the record under [/sensor/key] is tagged with the sensor
    and carries the key. *)
Lemma clean_sensor_data_tags (clk : Clock) (sensor key : string) (data : node)
    (cfg : option SensorCfg) (pt : Point) :
  contains_char "/" sensor = false → contains_char "/" key = false →
  clean_sensor_data clk ("/" +:+ sensor +:+ "/" +:+ key) data cfg = Some pt →
  measurement pt = "sensor_reading" ∧ sensor_id pt = sensor ∧ fb_key pt = key.
Proof.
  intros Hs Hk. unfold clean_sensor_data, clean_sensor_data_body.
  rewrite (split_path sensor key Hs Hk).
  change (contains_char "/" ("/" +:+ sensor +:+ "/" +:+ key)) with true.
  cbv iota.
  repeat match goal with
         | |- match ?r ≫= _ with _ => _ end = _ → _ => destruct r; cbn; [|done]
         end.
  by intros [= <-].
Qed.

(** The points of a run of keys of the page: tagged with the sensor, and
    carrying some of the keys, in their order. *)
Lemma normalized_keys_tagged (w : World) (cfg : option SensorCfg) (sensor : string)
    (items : list (string * node)) (keys : list string) :
  contains_char "/" sensor = false →
  (∀ k, k ∈ keys → contains_char "/" k = false) →
  Forall (λ pt, measurement pt = "sensor_reading" ∧ sensor_id pt = sensor)
    (omap (normalize_key w cfg sensor items) keys)
  ∧ map fb_key (omap (normalize_key w cfg sensor items) keys) `sublist_of` keys.
Proof.
  intros Hs. induction keys as [|k keys IH]; intros Hk; cbn [omap list_omap].
  { split; [constructor|done]. }
  destruct IH as [IH1 IH2]; [intros k' Hk'; apply Hk; by right|].
  destruct (normalize_key _ _ _ _ k) as [pt|] eqn:Hn; [|split; [done|by constructor]].
  unfold normalize_key in Hn.
  destruct (items_get items k) as [[d|v]|e]; [|done..].
  apply clean_sensor_data_tags in Hn as (Hm & Hsid & Hfb);
    [|done|apply Hk; by left].
  split; [by constructor|]. simpl. rewrite Hfb. by constructor.
Qed.

Lemma new_keys_elem (items : list (string * node)) (last_key : option string)
    (k : string) :
  k ∈ new_keys items last_key ↔ k ∈ map fst items ∧ last_key ≠ Some k.
Proof.
  unfold new_keys. rewrite list_elem_of_filter, sorted_elem.
  destruct last_key as [c|]; simpl.
  - destruct (String.eqb_spec k c) as [->|Hne]; split; intros [? ?];
      split; try done; congruence.
  - split; intros [? ?]; done.
Qed.

(** X4. For a sensor and keys that hold no slash, every point of the
    batch of a page is a [sensor_reading] tagged with the sensor, and the
    keys the points carry are keys of the page other than the cursor, in
    ascending order. *)
Theorem batch_carries_new_keys (w : World)
    (sensor_configs : list (string * SensorCfg)) (sensor : string)
    (items : list (string * node)) (last_key : option string) :
  contains_char "/" sensor = false →
  (∀ k, k ∈ map fst items → contains_char "/" k = false) →
  let batch := page_points w sensor_configs sensor items last_key in
  Forall (λ pt, measurement pt = "sensor_reading" ∧ sensor_id pt = sensor) batch
  ∧ map fb_key batch `sublist_of` new_keys items last_key
  ∧ Sorted key_le (new_keys items last_key)
  ∧ (∀ pt, pt ∈ batch → fb_key pt ∈ map fst items ∧ last_key ≠ Some (fb_key pt)).
Proof.
  intros Hs Hk batch.
  destruct (normalized_keys_tagged w (configs_get sensor_configs sensor) sensor
              items (new_keys items last_key) Hs) as [H1 H2].
  { intros k [Hin _]%new_keys_elem. by apply Hk. }
  split; [done|]. split; [done|]. split; [apply new_keys_Sorted|].
  intros pt Hpt. apply new_keys_elem.
  eapply elem_of_sublist; [|apply H2].
  apply list_elem_of_In, in_map. by apply list_elem_of_In.
Qed.

End PathFacts.

(** ** The polling loop, cycle after cycle *)

Lemma cursor_le_refl (c : option string) : cursor_le c c.
Proof. destruct c; simpl; [apply string_leb_refl|done]. Qed.

Lemma cursor_le_trans (a b c : option string) :
  cursor_le a b → cursor_le b c → cursor_le a c.
Proof.
  destruct a as [x|], b as [y|], c as [z|]; simpl; try done.
  apply string_leb_trans.
Qed.

Lemma key_le_empty (k : string) : key_le "" k.
Proof. by destruct k. Qed.



Section CycleFacts.
Context {rt : Runtime}.



Lemma poll_sensor_cursor_le (w : World) (sensor_configs : list (string * SensorCfg))
    (sensor other : string) (st : Bridge.State) :
  honours_start_at w →
  cursor_le (cursor_of st other)
    (cursor_of (poll_sensor w sensor_configs sensor st) other).
Proof.
  intros Hw.
  destruct (poll_sensor_outcome w sensor_configs sensor st)
    as [(Hc & _)|(items & points & nl & saved & Hget & Hpage & _ & _ & Hc & _)].
  { unfold cursor_of. rewrite Hc. apply cursor_le_refl. }
  unfold cursor_of at 2. rewrite Hc.
  destruct (decide (other = sensor)) as [->|Hne];
    [|rewrite lookup_insert_ne by done; apply cursor_le_refl].
  rewrite lookup_insert_eq. simpl.
  rewrite process_page_spec in Hpage. injection Hpage as _ <-.
  destruct (last (new_keys items (cursor_of st sensor))) as [k|] eqn:Hlast;
    simpl; [|apply cursor_le_refl].
  destruct (cursor_of st sensor) as [[|c r]|] eqn:Hcur; simpl;
    [apply key_le_empty| |done].
  apply (Hw sensor (String c r) 100%nat items Hget).
  apply last_Some in Hlast as [l' Hl'].
  assert (k ∈ new_keys items (Some (String c r))) as Hin
    by (rewrite Hl', elem_of_app, list_elem_of_singleton; by right).
  unfold new_keys in Hin. apply list_elem_of_filter in Hin as [_ Hin].
  by rewrite sorted_elem in Hin.
Qed.

(** X2. With a source that answers [start_at(k)] with keys from [k] on,
    the cursor of a sensor never moves back: after any number of cycles it
    is at or above where it was, in the order of the keys. *)
Theorem cursor_never_moves_back (w : World)
    (sensor_configs : list (string * SensorCfg)) (st : Bridge.State)
    (n : nat) (sensor : string) :
  honours_start_at w →
  cursor_le (cursor_of st sensor)
    (cursor_of (poll_cycles n w sensor_configs st) sensor).
Proof.
  intros Hw. revert st. induction n as [|n IH]; intros st; simpl.
  { apply cursor_le_refl. }
  eapply cursor_le_trans; [|apply IH].
  unfold poll_cycle. generalize (SENSORS sensor_configs). intros sensors.
  revert st. induction sensors as [|s sensors IHs]; intros st; simpl.
  { apply cursor_le_refl. }
  eapply cursor_le_trans; [|apply IHs]. by apply poll_sensor_cursor_le.
Qed.

Lemma items_get_Ok_elem (items : list (string * node)) (k : string) (r : node) :
  items_get items k = Ok r → (k, r) ∈ items.
Proof.
  induction items as [|[k0 r0] items IH]; simpl; [done|].
  destruct (String.eqb_spec k0 k) as [->|Hne].
  - intros [= ->]. by left.
  - intros H. right. by apply IH.
Qed.

Lemma items_get_Raise (items : list (string * node)) (k : string) (e : exn) :
  items_get items k = Raise e → e = KeyError ∧ k ∉ map fst items.
Proof.
  induction items as [|[k0 r0] items IH]; simpl.
  - intros [= <-]. split; [done|]. apply not_elem_of_nil.
  - destruct (String.eqb_spec k0 k) as [->|Hne]; [done|].
    intros [-> Hk]%IH. split; [done|]. rewrite not_elem_of_cons. done.
Qed.

Lemma elem_map_fst (items : list (string * node)) (k : string) (r : node) :
  (k, r) ∈ items → k ∈ map fst items.
Proof.
  induction items as [|[k0 r0] items IH]; simpl; [by intros ?%elem_of_nil|].
  intros [[= -> ->]|Hin]%elem_of_cons; [by left|right; auto].
Qed.

Lemma items_get_lookup (items : list (string * node)) (k : string) (r : node) :
  NoDup (map fst items) → (k, r) ∈ items → items_get items k = Ok r.
Proof.
  induction items as [|[k0 r0] items IH]; simpl; [by intros _ ?%elem_of_nil|].
  intros [Hk0 Hnd]%NoDup_cons [[= -> ->]|Hin]%elem_of_cons.
  - by rewrite String.eqb_refl.
  - destruct (String.eqb_spec k0 k) as [->|Hne]; [|by apply IH].
    exfalso. apply Hk0. by apply elem_map_fst in Hin.
Qed.

Lemma items_get_perm (items1 items2 : list (string * node)) (k : string) :
  items1 ≡ₚ items2 → NoDup (map fst items1) →
  items_get items1 k = items_get items2 k.
Proof.
  intros Hp Hnd.
  assert (map fst items1 ≡ₚ map fst items2) as Hpk by by apply Permutation_map.
  destruct (items_get items1 k) as [r|e] eqn:H1.
  - symmetry. apply items_get_lookup; [by rewrite <- Hpk|].
    rewrite <- Hp. by apply items_get_Ok_elem.
  - apply items_get_Raise in H1 as [-> Hk]. rewrite Hpk in Hk.
    destruct (items_get items2 k) as [r|e] eqn:H2.
    + apply items_get_Ok_elem, elem_map_fst in H2. done.
    + by apply items_get_Raise in H2 as [-> _].
Qed.

(** X3. The batch and the new cursor of a page do not depend on the order
    in which the source lists its records: the keys are sorted first, so two
    listings of the same records, with distinct keys, are processed
    alike. *)
Theorem process_page_order_independent (w : World)
    (sensor_configs : list (string * SensorCfg)) (sensor : string)
    (items1 items2 : list (string * node)) (last_key : option string) :
  items1 ≡ₚ items2 → NoDup (map fst items1) →
  process_page w sensor_configs sensor items1 last_key
  = process_page w sensor_configs sensor items2 last_key.
Proof.
  intros Hp Hnd. rewrite !process_page_spec.
  assert (sorted (map fst items1) = sorted (map fst items2)) as Hs.
  { apply (@Sorted_unique _ key_le key_le_trans key_le_antisymm);
      [apply sorted_Sorted..|].
    rewrite !sorted_perm. by apply Permutation_map. }
  unfold page_points, new_keys. rewrite Hs.
  f_equal. f_equal.
  induction (filter (λ k, is_cursor k last_key = false) (sorted (map fst items2)))
    as [|k l IH]; [done|].
  cbn [omap list_omap]. rewrite IH. unfold normalize_key at 1 3.
  by rewrite (items_get_perm items1 items2).
Qed.

End CycleFacts.

(** ** The checkpoint and the restart *)

Section CheckpointFacts.
Context {rt : Runtime}.

Lemma poll_sensor_checkpoint (w : World) (sensor_configs : list (string * SensorCfg))
    (sensor : string) (st : Bridge.State) :
  (∀ c, ∃ u, file_write w c = Ok u) →
  state_file st = Some (cursors st) →
  state_file (poll_sensor w sensor_configs sensor st)
  = Some (cursors (poll_sensor w sensor_configs sensor st)).
Proof.
  intros Hfile Hst. unfold poll_sensor.
  destruct (fb_get w sensor _) as [[items|]|e]; [|done..].
  destruct items as [|item items]; [done|].
  destruct (_ && _); [done|].
  destruct (process_page _ _ _ _ _) as [[points nl]|e]; [|done].
  unfold commit_page. destruct points as [|pt points]; [done|].
  destruct (influx_write w (pt :: points)); [|done].
  unfold save_state. simpl.
  by destruct (Hfile (<[sensor := nl]> (cursors st))) as [u ->].
Qed.

Lemma poll_sensor_keeps_entries (w : World)
    (sensor_configs : list (string * SensorCfg)) (sensor s : string)
    (st : Bridge.State) :
  is_Some (cursors st !! s) →
  is_Some (cursors (poll_sensor w sensor_configs sensor st) !! s).
Proof.
  intros Hs.
  destruct (poll_sensor_outcome w sensor_configs sensor st)
    as [(-> & _)|(items & points & nl & saved & _ & _ & _ & _ & -> & _)]; [done|].
  rewrite lookup_insert_is_Some. destruct (decide (sensor = s)); auto.
Qed.

Lemma poll_cycles_checkpoint (n : nat) (w : World)
    (sensor_configs : list (string * SensorCfg)) (st : Bridge.State) :
  (∀ c, ∃ u, file_write w c = Ok u) →
  state_file st = Some (cursors st) →
  state_file (poll_cycles n w sensor_configs st)
  = Some (cursors (poll_cycles n w sensor_configs st)).
Proof.
  intros Hfile. revert st. induction n as [|n IH]; intros st Hst; simpl; [done|].
  apply IH. unfold poll_cycle. generalize (SENSORS sensor_configs).
  intros sensors. revert st Hst.
  induction sensors as [|s sensors IHs]; intros st Hst; simpl; [done|].
  apply IHs. by apply poll_sensor_checkpoint.
Qed.

Lemma poll_cycles_keeps_entries (n : nat) (w : World)
    (sensor_configs : list (string * SensorCfg)) (s : string) (st : Bridge.State) :
  is_Some (cursors st !! s) →
  is_Some (cursors (poll_cycles n w sensor_configs st) !! s).
Proof.
  revert st. induction n as [|n IH]; intros st Hst; simpl; [done|].
  apply IH. unfold poll_cycle. generalize (SENSORS sensor_configs).
  intros sensors. revert st Hst.
  induction sensors as [|s' sensors IHs]; intros st Hst; simpl; [done|].
  apply IHs. by apply poll_sensor_keeps_entries.
Qed.

Lemma resolve_all_trace (w : World) (saved_state : gmap string (option string))
    (sensors : list string) (st : Bridge.State) :
  (∀ s, s ∈ sensors → is_Some (saved_state !! s)) →
  Bridge.trace (fold_left (λ st s, resolve_cursor w saved_state s st) sensors st)
  = Bridge.trace st.
Proof.
  revert st. induction sensors as [|s sensors IH]; intros st Hin; simpl; [done|].
  rewrite IH by (intros s' Hs'; apply Hin; by right).
  destruct (resolve_cursor_spec w saved_state s st) as (_ & _ & ->).
  unfold recovery_calls. destruct (Hin s) as [v ->]; [by left|].
  by rewrite app_nil_r.
Qed.

(** X5. While the state file can be written, it holds the cursors in
    memory after the initialization and after every cycle. A process
    restarted on that file resumes every configured sensor at the cursor it
    had, without asking the sink or the source, and saves the file
    again. *)
Theorem restart_resumes_at_checkpoint (w w' : World)
    (sensor_configs : list (string * SensorCfg)) (st0 : Bridge.State) (n : nat) :
  (∀ c, ∃ u, file_write w c = Ok u) →
  let st := poll_cycles n w sensor_configs
              (init_cursors w (SENSORS sensor_configs) st0) in
  let st' := init_cursors w' (SENSORS sensor_configs) (restarted st) in
  state_file st = Some (cursors st)
  ∧ (∀ s, s ∈ SENSORS sensor_configs → cursors st' !! s = cursors st !! s)
  ∧ ∃ saved, Bridge.trace st' = [FileSave (cursors st') saved].
Proof.
  intros Hfile st st'.
  assert (state_file st = Some (cursors st)) as Hst.
  { apply poll_cycles_checkpoint; [done|].
    unfold init_cursors, save_state.
    by destruct (Hfile (cursors (fold_left
      (λ st s, resolve_cursor w (load_state_from_file st0) s st)
      (SENSORS sensor_configs) st0))) as [u ->]. }
  assert (∀ s, s ∈ SENSORS sensor_configs → is_Some (cursors st !! s)) as Hall.
  { intros s Hs. apply poll_cycles_keeps_entries.
    unfold init_cursors. rewrite save_state_cursors, resolve_all_cursors.
    by rewrite decide_True. }
  split; [done|].
  assert (load_state_from_file (restarted st) = cursors st) as Hload
    by (unfold load_state_from_file; simpl; by rewrite Hst).
  split.
  - intros s Hs. subst st'. unfold init_cursors.
    rewrite save_state_cursors, resolve_all_cursors, decide_True by done.
    rewrite Hload. unfold tiered_cursor.
    by destruct (Hall s Hs) as [v ->].
  - subst st'. unfold init_cursors. rewrite Hload.
    unfold save_state.
    destruct (file_write w' _); simpl; rewrite resolve_all_trace by done;
      [by exists true|by exists false].
Qed.

End CheckpointFacts.

(** ** No record is delivered twice *)

Lemma map_as_fmap {A B : Type} (f : A → B) (l : list A) : map f l = f <$> l.
Proof. induction l as [|x l IH]; simpl; [done|]. by rewrite IH. Qed.

Lemma acked_app (l1 l2 : list Bridge.event) :
  acked (l1 ++ l2) = (acked l1 ++ acked l2)%list.
Proof. apply omap_app. Qed.

Lemma delivered_app (l1 l2 : list Bridge.event) :
  delivered (l1 ++ l2) = (delivered l1 ++ delivered l2)%list.
Proof. unfold delivered. by rewrite acked_app, map_app, concat_app. Qed.

Section DeliveryFacts.
Context {rt : Runtime}.

(** One sensor's turn: nothing is acknowledged and no cursor moves, or the
    batch of the fetched page is acknowledged and the cursor is set. *)
Lemma poll_sensor_delivery (w : World) (sensor_configs : list (string * SensorCfg))
    (sensor : string) (st : Bridge.State) :
  let st' := poll_sensor w sensor_configs sensor st in
  let q := build_query (cursor_of st sensor) in
  (∃ evs, Bridge.trace st' = (Bridge.trace st ++ evs)%list
          ∧ acked evs = [] ∧ cursors st' = cursors st)
  ∨ (∃ items evs,
       fb_get w sensor q = Ok (SDict items)
       ∧ Bridge.trace st' = (Bridge.trace st ++ evs)%list
       ∧ acked evs = [page_points w sensor_configs sensor items (cursor_of st sensor)]
       ∧ cursors st'
         = <[sensor := from_option Some (cursor_of st sensor)
                         (last (new_keys items (cursor_of st sensor)))]>
             (cursors st)).
Proof.
  unfold poll_sensor. fold (cursor_of st sensor).
  set (q := build_query (cursor_of st sensor)).
  assert (∃ evs, Bridge.trace (Bridge.log (SourceGet sensor q) st)
                 = (Bridge.trace st ++ evs)%list
               ∧ acked evs = []
               ∧ cursors (Bridge.log (SourceGet sensor q) st) = cursors st) as Hnone
    by (by exists [SourceGet sensor q]).
  destruct (fb_get w sensor q) as [[items|]|e] eqn:Hget; [|by left..].
  destruct items as [|item items]; [by left|].
  destruct (_ && _); [by left|].
  rewrite process_page_spec. unfold commit_page.
  destruct (page_points _ _ _ _ _) as [|pt points] eqn:Hpts; [by left|].
  destruct (influx_write w (pt :: points)).
  - right. exists (item :: items). unfold save_state. simpl.
    destruct (file_write w _); simpl; eexists; rewrite <- !app_assoc;
      (split; [done|]); (split; [reflexivity|]); by rewrite Hpts.
  - left. exists [SourceGet sensor q; SinkWrite (pt :: points) false].
    simpl. by rewrite <- app_assoc.
Qed.

Lemma poll_sensor_no_duplicate (w : World)
    (sensor_configs : list (string * SensorCfg)) (sensor : string)
    (st : Bridge.State) :
  honours_start_at w → well_keyed w → contains_char "/" sensor = false →
  NoDup (delivered (Bridge.trace st)) ∧ below_cursors st →
  NoDup (delivered (Bridge.trace (poll_sensor w sensor_configs sensor st)))
  ∧ below_cursors (poll_sensor w sensor_configs sensor st).
Proof.
  intros Hw Hkeys Hsensor [Hnd Hbelow].
  assert (∀ s k, (s, k) ∈ delivered (Bridge.trace st) →
            cursor_le (Some k)
              (cursor_of (poll_sensor w sensor_configs sensor st) s)) as Hold.
  { intros s k Hin. eapply cursor_le_trans; [by apply Hbelow|].
    by apply poll_sensor_cursor_le. }
  destruct (poll_sensor_delivery w sensor_configs sensor st)
    as [(evs & Ht & Ha & Hc)|(items & evs & Hget & Ht & Ha & Hc)].
  { assert (delivered (Bridge.trace (poll_sensor w sensor_configs sensor st))
            = delivered (Bridge.trace st)) as Hsame.
    { rewrite Ht, delivered_app. unfold delivered at 2. rewrite Ha. simpl.
      by rewrite app_nil_r. }
    unfold below_cursors. rewrite Hsame. split; [done|]. apply Hold. }
  destruct (Hkeys sensor _ items Hget) as [Hnodup Hslash].
  destruct (normalized_keys_tagged w (configs_get sensor_configs sensor) sensor
              items (new_keys items (cursor_of st sensor)) Hsensor) as [Htag Hsub].
  { intros k [Hin _]%new_keys_elem. by apply Hslash. }
  pose proof (new_keys_Sorted items (cursor_of st sensor)) as Hsorted.
  fold (page_points w sensor_configs sensor items (cursor_of st sensor)) in *.
  set (batch := page_points w sensor_configs sensor items (cursor_of st sensor))
    in *.
  assert (map record_id batch = map (λ k, (sensor, k)) (map fb_key batch)) as Hids.
  { rewrite map_map. apply map_ext_Forall.
    eapply Forall_impl; [apply Htag|]. intros pt [_ Hs].
    unfold record_id. by rewrite Hs. }
  assert (delivered evs = map (λ k, (sensor, k)) (map fb_key batch)) as Hnew.
  { unfold delivered. rewrite Ha. simpl. by rewrite app_nil_r. }
  assert (∀ k, k ∈ map fb_key batch →
            k ∈ new_keys items (cursor_of st sensor)) as Hin_new
    by (intros k Hk; by eapply elem_of_sublist).
  unfold below_cursors. split.
  - rewrite Ht, delivered_app, Hnew. apply NoDup_app. split; [done|]. split.
    + intros [s k] Hold_in Hnew_in.
      apply list_elem_of_In, in_map_iff in Hnew_in as (k' & [= <- <-] & Hk').
      apply list_elem_of_In, Hin_new in Hk'.
      apply list_elem_of_filter in Hk' as [Hcur Hk'].
      rewrite sorted_elem in Hk'.
      pose proof (Hbelow _ _ Hold_in) as Hle.
      destruct (cursor_of st sensor) as [[|c r]|] eqn:Hcursor; simpl in *.
      * destruct k'; [done|discriminate Hle].
      * assert (key_le (String c r) k') as Hge
          by exact (Hw sensor (String c r) 100%nat items Hget k' Hk').
        pose proof (String.leb_antisym _ _ Hle Hge) as ->.
        by rewrite String.eqb_refl in Hcur.
      * done.
    + rewrite map_as_fmap. apply NoDup_fmap_2_strong.
      * by intros k1 k2 _ _ [= ->].
      * eapply sublist_NoDup; [|apply Hsub]. by apply new_keys_NoDup.
  - intros s k. rewrite Ht, delivered_app, elem_of_app.
    intros [Hin|Hin]; [by apply Hold|].
    rewrite Hnew in Hin.
    apply list_elem_of_In, in_map_iff in Hin as (k' & [= <- <-] & Hk').
    apply list_elem_of_In, Hin_new in Hk'.
    unfold cursor_of at 1. rewrite Hc, lookup_insert_eq. simpl.
    destruct (last (new_keys items (cursor_of st sensor))) as [kmax|] eqn:Hlast.
    + simpl. by apply (Sorted_last_max _ _ Hsorted Hlast).
    + apply last_None in Hlast. rewrite Hlast in Hk'. by apply elem_of_nil in Hk'.
Qed.

(** X9. With a source that answers [start_at(k)] with keys from [k] on,
    in mappings with distinct keys, and sensors and keys without slash: over
    any number of cycles from a run's start, no record, named by its sensor
    tag and source key, appears twice in the batches the sink
    acknowledged. *)
Theorem no_record_delivered_twice (w : World)
    (sensor_configs : list (string * SensorCfg)) (st : Bridge.State) (n : nat) :
  honours_start_at w → well_keyed w →
  Forall (λ s, contains_char "/" s = false) (SENSORS sensor_configs) →
  Bridge.trace st = [] →
  NoDup (delivered (Bridge.trace (poll_cycles n w sensor_configs st))).
Proof.
  intros Hw Hkeys Hsensors Hst.
  assert (NoDup (delivered (Bridge.trace st)) ∧ below_cursors st) as Hinv.
  { unfold below_cursors. rewrite Hst. split; [constructor|].
    intros s k Hin. by apply elem_of_nil in Hin. }
  clear Hst. revert st Hinv. induction n as [|n IH]; intros st Hinv; simpl.
  { by destruct Hinv. }
  apply IH. unfold poll_cycle. revert Hsensors.
  generalize (SENSORS sensor_configs). intros sensors Hsensors.
  revert st Hinv. induction Hsensors as [|s sensors Hs _ IHs]; intros st Hinv;
    simpl; [done|].
  apply IHs. by apply poll_sensor_no_duplicate.
Qed.

End DeliveryFacts.

(** ** What escapes the parsers *)




Section EscapeFacts.
Context {rt : Runtime}.



End EscapeFacts.

(** ** The scan of a view *)

Lemma seen_update_other (tk tk' : string) (f : list Media.pyobj → list Media.pyobj)
    (st : Media.State) :
  tk ≠ tk' → Media.seen tk (Media.update_seen tk' f st) = Media.seen tk st.
Proof.
  intros Hne. unfold Media.seen, Media.update_seen. simpl.
  by rewrite lookup_insert_ne.
Qed.

Lemma seen_ensure (tk tk' : string) (st : Media.State) :
  Media.seen tk (Media.ensure_seen tk' st) = Media.seen tk st.
Proof.
  unfold Media.ensure_seen. destruct (Media._seen_blobs st !! tk') eqn:Hl; [done|].
  unfold Media.seen. simpl. destruct (decide (tk = tk')) as [->|Hne].
  - by rewrite lookup_insert_eq, Hl.
  - by rewrite lookup_insert_ne.
Qed.

Lemma set_add_elem (x y : Media.pyobj) (s : list Media.pyobj) :
  y ∈ Media.set_add x s ↔ y = x ∨ y ∈ s.
Proof.
  unfold Media.set_add, Media.set_in. destruct (bool_decide _) eqn:Hb.
  - apply bool_decide_eq_true_1 in Hb. split; [auto|]. by intros [->|].
  - rewrite elem_of_app, list_elem_of_singleton. tauto.
Qed.

Lemma publish_attempts_app (l1 l2 : list Media.event) :
  publish_attempts (l1 ++ l2) = (publish_attempts l1 ++ publish_attempts l2)%list.
Proof. apply omap_app. Qed.

Lemma published_app (l1 l2 : list Media.event) :
  published (l1 ++ l2) = (published l1 ++ published l2)%list.
Proof. apply omap_app. Qed.

Lemma pointer_writes_app (l1 l2 : list Media.event) :
  pointer_writes (l1 ++ l2) = (pointer_writes l1 ++ pointer_writes l2)%list.
Proof. apply omap_app. Qed.

Section ScanFacts.
Variable w : Media.World.
Variables sensor_id view_name : string.
Variable view_cfg : Media.ViewCfg.

Lemma scan_stretch_refl (st : Media.State) (pts : list Media.ImagePoint) :
  scan_stretch w sensor_id view_name view_cfg st pts (Ok pts) st.
Proof.
  exists []. rewrite app_nil_r. repeat split; try done.
  intros pts' [= <-]. exists []. by rewrite app_nil_r.
Qed.

Lemma scan_stretch_trans (st1 st2 st3 : Media.State)
    (pts1 pts2 : list Media.ImagePoint) (r : result (list Media.ImagePoint)) :
  scan_stretch w sensor_id view_name view_cfg st1 pts1 (Ok pts2) st2 →
  scan_stretch w sensor_id view_name view_cfg st2 pts2 r st3 →
  scan_stretch w sensor_id view_name view_cfg st1 pts1 r st3.
Proof.
  intros (evs1 & Ht1 & Hw1 & Hp1 & Hs1 & Hr1) (evs2 & Ht2 & Hw2 & Hp2 & Hs2 & Hr2).
  exists (evs1 ++ evs2)%list.
  rewrite Ht2, Ht1, <- app_assoc, pointer_writes_app, Hw1, Hw2,
    publish_attempts_app, published_app.
  split; [done|]. split; [done|]. split.
  { apply Forall_app. split; [done|].
    eapply Forall_impl; [apply Hp2|]. intros n (Hn & Hd & Hm).
    split; [|done]. intros Hin. by apply Hn, Hs1. }
  split; [by auto|].
  intros pts3 ->.
  destruct (Hr1 pts2 eq_refl) as (new1 & -> & Hpt1 & Hin1).
  destruct (Hr2 pts3 eq_refl) as (new2 & -> & Hpt2 & Hin2).
  exists (new1 ++ new2)%list. rewrite <- app_assoc. split; [done|]. split.
  - by apply Forall2_app.
  - apply Forall_app. split; [|done].
    eapply Forall_impl; [apply Hin1|]. intros n Hn. by apply Hs2.
Qed.

Lemma scan_stretch_log_listing (st : Media.State) (pts : list Media.ImagePoint)
    (prefix : string) (b : bool) :
  scan_stretch w sensor_id view_name view_cfg st pts (Ok pts) (Media.log (Media.Listing prefix b) st).
Proof.
  exists [Media.Listing prefix b]. repeat split; try done.
  intros pts' [= <-]. exists []. by rewrite app_nil_r.
Qed.

Lemma ingest_blob_stretch (blob : Media.Blob) (pts : list Media.ImagePoint)
    (st : Media.State) :
  scan_stretch w sensor_id view_name view_cfg st pts
    (Media.ingest_blob w sensor_id view_name (sensor_id +:+ "/" +:+ view_name) view_cfg blob pts st).1
    (Media.ingest_blob w sensor_id view_name (sensor_id +:+ "/" +:+ view_name) view_cfg blob pts st).2.
Proof.
  unfold Media.ingest_blob.
  destruct (ends_with "/" (Media.blob_name blob)) eqn:Hdir;
    [apply scan_stretch_refl|].
  unfold Media.set_in.
  destruct (bool_decide _) eqn:Hnew; [apply scan_stretch_refl|].
  apply bool_decide_eq_false_1 in Hnew.
  destruct (Media.fnmatch w _ _) eqn:Hpat; [|apply scan_stretch_refl].
  assert (publishable w view_cfg (Media.seen (sensor_id +:+ "/" +:+ view_name) st) (Media.blob_name blob))
    as Hable by done.
  simpl. destruct (Media.make_public w (Media.blob_name blob)) as [url|e] eqn:Hpub.
  - destruct (Media._get_blob_timestamp w blob _ _ _) as [ts|e]; simpl.
    + exists [Media.Publish (Media.blob_name blob) true].
      split; [done|]. split; [done|]. split; [by repeat constructor|]. split.
      { intros tk0 name Hin. destruct (decide (tk0 = (sensor_id +:+ "/" +:+ view_name))) as [->|Hne].
        - rewrite seen_update_seen, set_add_elem. by right.
        - by rewrite seen_update_other. }
      intros pts' [= <-]. eexists. split; [done|]. split.
      * by repeat constructor.
      * repeat constructor. rewrite seen_update_seen, set_add_elem. by left.
    + exists [Media.Publish (Media.blob_name blob) true].
      split; [done|]. split; [done|]. split; [by repeat constructor|].
      split; [done|]. done.
  - exists [Media.Publish (Media.blob_name blob) false].
    split; [done|]. split; [done|]. split; [by repeat constructor|].
    split; [done|]. intros pts' [= <-]. exists []. by rewrite app_nil_r.
Qed.

Lemma ingest_blobs_stretch (blobs : list Media.Blob) (pts : list Media.ImagePoint)
    (st : Media.State) :
  scan_stretch w sensor_id view_name view_cfg st pts
    (Media.ingest_blobs w sensor_id view_name (sensor_id +:+ "/" +:+ view_name) view_cfg blobs pts st).1
    (Media.ingest_blobs w sensor_id view_name (sensor_id +:+ "/" +:+ view_name) view_cfg blobs pts st).2.
Proof.
  revert pts st. induction blobs as [|blob blobs IH]; intros pts st; simpl.
  { apply scan_stretch_refl. }
  pose proof (ingest_blob_stretch blob pts st) as H1.
  destruct (Media.ingest_blob w sensor_id view_name (sensor_id +:+ "/" +:+ view_name) view_cfg blob pts st)
    as [[pts1|e] st1]; simpl in *; [|done].
  eapply scan_stretch_trans; [apply H1|apply IH].
Qed.

Lemma scan_prefixes_stretch (prefixes : list string) (pts : list Media.ImagePoint)
    (st : Media.State) :
  scan_stretch w sensor_id view_name view_cfg st pts
    (Media.scan_prefixes w sensor_id view_name (sensor_id +:+ "/" +:+ view_name) view_cfg prefixes pts st).1
    (Media.scan_prefixes w sensor_id view_name (sensor_id +:+ "/" +:+ view_name) view_cfg prefixes pts st).2.
Proof.
  revert pts st. induction prefixes as [|p prefixes IH]; intros pts st; simpl.
  { apply scan_stretch_refl. }
  destruct (Media.list_blobs w p) as [blobs|e].
  - pose proof (ingest_blobs_stretch blobs pts
                  (Media.log (Media.Listing p true) st)) as H1.
    destruct (Media.ingest_blobs w sensor_id view_name (sensor_id +:+ "/" +:+ view_name) view_cfg blobs pts _)
      as [[pts1|e] st1]; simpl in *.
    + eapply scan_stretch_trans; [apply scan_stretch_log_listing|].
      eapply scan_stretch_trans; [apply H1|apply IH].
    + eapply scan_stretch_trans; [apply scan_stretch_log_listing|apply H1].
  - eapply scan_stretch_trans; [apply scan_stretch_log_listing|apply IH].
Qed.

End ScanFacts.

(** ** One pass over a view, and a whole cycle *)

Lemma discard_points_trace (w : Media.World) (tk : string)
    (pts : list Media.ImagePoint) (st : Media.State) :
  Media.trace (Media.discard_points w tk pts st).2 = Media.trace st.
Proof.
  revert st. induction pts as [|pt pts IH]; intros st; simpl; [done|].
  destruct (Media.point_hashable w); [|done]. by rewrite IH.
Qed.

Lemma discard_points_keeps_all_names (w : Media.World) (tk tk0 : string)
    (pts : list Media.ImagePoint) (st : Media.State) (name : string) :
  Media.OStr name ∈ Media.seen tk0 st →
  Media.OStr name ∈ Media.seen tk0 (Media.discard_points w tk pts st).2.
Proof.
  revert st. induction pts as [|pt pts IH]; intros st Hin; simpl; [done|].
  destruct (Media.point_hashable w); [|done].
  apply IH. destruct (decide (tk0 = tk)) as [->|Hne].
  - rewrite seen_update_seen. by apply set_discard_point_keeps_name.
  - by rewrite seen_update_other.
Qed.

Lemma write_points_keeps_all_names (w : Media.World) (tk tk0 : string)
    (pts : list Media.ImagePoint) (st : Media.State) (name : string) :
  Media.OStr name ∈ Media.seen tk0 st →
  Media.OStr name ∈ Media.seen tk0 (Media.write_points w tk pts st).2.
Proof.
  intros Hin. unfold Media.write_points. destruct pts as [|pt pts]; [done|].
  destruct (Media.write w (pt :: pts)); [done|].
  by apply discard_points_keeps_all_names.
Qed.

Lemma trace_ensure (tk : string) (st : Media.State) :
  Media.trace (Media.ensure_seen tk st) = Media.trace st.
Proof. unfold Media.ensure_seen. by destruct (Media._seen_blobs st !! tk). Qed.

(** One pass over a view: the calls of the scan, then at most one write
    of the points the scan gathered. *)
Lemma poll_view_pass (w : Media.World) (sensor_id view_name : string)
    (view_cfg : Media.ViewCfg) (st : Media.State) :
  let tk := sensor_id +:+ "/" +:+ view_name in
  let r := (Media.poll_view w sensor_id view_name view_cfg st).1 in
  let st' := (Media.poll_view w sensor_id view_name view_cfg st).2 in
  ∃ evs,
    Media.trace st' = (Media.trace st ++ evs)%list
    ∧ Forall (publishable w view_cfg (Media.seen tk st)) (publish_attempts evs)
    ∧ (∀ tk0 name, Media.OStr name ∈ Media.seen tk0 st →
                   Media.OStr name ∈ Media.seen tk0 st')
    ∧ match pointer_writes evs with
      | [] => published evs = [] ∨ ∃ e, r = Raise e
      | [pts] => Forall2 (points_to w sensor_id view_name) pts (published evs)
      | _ => False
      end.
Proof.
  intros tk r st'. subst r st'. unfold Media.poll_view. fold tk.
  pose proof (scan_prefixes_stretch w sensor_id view_name view_cfg
    (Media.prefixes_to_scan w (default "" (Media.view_prefix view_cfg))
       (default true (Media.view_date_folders view_cfg)))
    [] (Media.ensure_seen tk st)) as H.
  fold tk in H.
  destruct (Media.scan_prefixes w sensor_id view_name tk view_cfg _ [] _)
    as [[pts|e] st1]; simpl in H;
    destruct H as (evs & Ht & Hw & Hp & Hs & Hr); fold tk in Hp;
    rewrite trace_ensure in Ht.
  - destruct (Hr pts eq_refl) as (new & -> & Hpt & _). simpl in *.
    unfold Media.write_points. destruct new as [|pt new].
    { exists evs. rewrite Hw. apply Forall2_nil_inv_l in Hpt.
      rewrite seen_ensure in Hp. split; [done|]. split; [done|].
      split; [|by left]. intros tk0 name Hin. apply Hs. by rewrite seen_ensure. }
    destruct (Media.write w (pt :: new)).
    + exists (evs ++ [Media.Write (pt :: new) true])%list. simpl.
      rewrite Ht, <- app_assoc, publish_attempts_app, pointer_writes_app,
        published_app, Hw, !app_nil_r.
      rewrite seen_ensure in Hp. split; [done|]. split; [done|].
      split; [|done]. intros tk0 name Hin. apply Hs. by rewrite seen_ensure.
    + exists (evs ++ [Media.Write (pt :: new) false])%list.
      rewrite discard_points_trace. simpl.
      rewrite Ht, <- app_assoc, publish_attempts_app, pointer_writes_app,
        published_app, Hw, !app_nil_r.
      rewrite seen_ensure in Hp. split; [done|]. split; [done|].
      split; [|done]. intros tk0 name Hin.
      apply (discard_points_keeps_all_names w tk tk0 (pt :: new)).
      apply Hs. by rewrite seen_ensure.
  - exists evs. simpl. rewrite Hw. rewrite seen_ensure in Hp.
    split; [done|]. split; [done|]. split; [|eauto].
    intros tk0 name Hin. apply Hs. by rewrite seen_ensure.
Qed.

(** X10. In one pass over a view, every blob the poller tries to make
    public was not in the seen-set of the view when the pass began, is not
    a directory placeholder, and has a base name that matches the file-name
    pattern of the view once both are put in lower case. *)
Theorem publish_only_unseen_matching (w : Media.World)
    (sensor_id view_name : string) (view_cfg : Media.ViewCfg) (st : Media.State) :
  ∃ evs,
    Media.trace (Media.poll_view w sensor_id view_name view_cfg st).2
    = (Media.trace st ++ evs)%list
    ∧ ∀ name, name ∈ publish_attempts evs →
        (Media.OStr name ∉ Media.seen (sensor_id +:+ "/" +:+ view_name) st)
        ∧ ends_with "/" name = false
        ∧ Media.fnmatch w (lower_str (Media.basename name))
            (lower_str (default "*.jpg" (Media.view_filename_pattern view_cfg)))
          = true.
Proof.
  destruct (poll_view_pass w sensor_id view_name view_cfg st)
    as (evs & Ht & Hp & _).
  exists evs. split; [done|]. intros name Hin.
  by apply (proj1 (Forall_forall _ _) Hp name Hin).
Qed.

(** X11. In one pass over a view the sink is handed at most one batch. The
    batch holds one pointer per blob made public in the pass, in that
    order, tagged with the sensor and the view and carrying the public URL
    and the base name of its blob. No batch is handed over only when no
    blob was made public or the pass raised. *)
Theorem pointer_batch_matches_published (w : Media.World)
    (sensor_id view_name : string) (view_cfg : Media.ViewCfg) (st : Media.State) :
  ∃ evs,
    Media.trace (Media.poll_view w sensor_id view_name view_cfg st).2
    = (Media.trace st ++ evs)%list
    ∧ match pointer_writes evs with
      | [] => published evs = []
              ∨ ∃ e, (Media.poll_view w sensor_id view_name view_cfg st).1 = Raise e
      | [pts] =>
          Forall2 (λ pt name,
                     Media.img_sensor_id pt = sensor_id
                     ∧ Media.img_view pt = view_name
                     ∧ Media.make_public w name = Ok (Media.image_url pt)
                     ∧ Media.img_filename pt = Media.basename name)
            pts (published evs)
      | _ => False
      end.
Proof.
  destruct (poll_view_pass w sensor_id view_name view_cfg st)
    as (evs & Ht & _ & _ & Hw).
  exists evs. split; [done|]. done.
Qed.

(** X12. No blob name ever leaves a seen-set: whatever listing, publish,
    timestamp or write fails in a cycle, a name that was in the seen-set
    of a view before the cycle is in it afterwards. *)
Theorem seen_names_never_leave (w : Media.World)
    (sensor_configs : list (string * list (string * Media.ViewCfg)))
    (st : Media.State) (tk : string) (name : string) :
  Media.OStr name ∈ Media.seen tk st →
  Media.OStr name ∈ Media.seen tk (Media.poll_cycle w sensor_configs st).
Proof.
  unfold Media.poll_cycle. revert st.
  induction sensor_configs as [|[sensor_id views] rest IH]; intros st Hin;
    simpl; [done|].
  assert (Media.OStr name
          ∈ Media.seen tk (Media.poll_views w sensor_id views st).2) as Hviews.
  { clear IH. revert st Hin.
    induction views as [|[view_name view_cfg] views IHv]; intros st Hin;
      simpl; [done|].
    destruct (poll_view_pass w sensor_id view_name view_cfg st)
      as (evs & _ & _ & Hs & _).
    destruct (Media.poll_view w sensor_id view_name view_cfg st) as [[u|e] st1];
      simpl in *; [apply IHv|]; by apply Hs. }
  destruct (Media.poll_views w sensor_id views st) as [[u|e] st1]; simpl in *;
    [by apply IH|done].
Qed.

(** ** The prefixes of a view *)

Lemma rev_str_app (s t : string) :
  rev_str "" (s +:+ t) = rev_str "" t +:+ rev_str "" s.
Proof.
  induction s as [|c s IH]; [by rewrite str_app_nil_l, str_app_nil_r|].
  rewrite str_app_cons. cbn [rev_str].
  by rewrite (rev_str_acc (String c "") (s +:+ t)), (rev_str_acc (String c "") s),
    IH, str_app_assoc.
Qed.

Lemma rev_str_involutive (s : string) : rev_str "" (rev_str "" s) = s.
Proof.
  induction s as [|c s IH]; [done|]. cbn [rev_str].
  by rewrite (rev_str_acc (String c "") s), rev_str_app, IH.
Qed.

Lemma drop_char_head (c : ascii) (s : string) :
  match drop_char c s with
  | String d _ => Ascii.eqb c d = false
  | EmptyString => True
  end.
Proof.
  induction s as [|d s IH]; simpl; [done|].
  by destruct (Ascii.eqb c d) eqn:Hc.
Qed.

Lemma rstrip_sep (c : ascii) (s : string) :
  rstrip c (s +:+ String c "") = rstrip c s.
Proof.
  unfold rstrip. rewrite rev_str_app. cbn [rev_str].
  rewrite str_app_cons, str_app_nil_l. simpl. by rewrite Ascii.eqb_refl.
Qed.

Lemma ends_with_rstrip (c : ascii) (s : string) : ends_with c (rstrip c s) = false.
Proof.
  unfold ends_with, rstrip. rewrite rev_str_involutive.
  pose proof (drop_char_head c (rev_str "" s)) as H.
  by destruct (drop_char c (rev_str "" s)).
Qed.

Lemma ends_with_sep (c : ascii) (s : string) : ends_with c (s +:+ String c "") = true.
Proof.
  unfold ends_with. rewrite rev_str_app. cbn [rev_str].
  rewrite str_app_cons. apply Ascii.eqb_refl.
Qed.

(** X13. The prefix scanned for a view is the configured prefix without
    its trailing slashes, followed by one slash, with the date folder and
    one more slash in between when date folders are used. A trailing slash
    on the configured prefix changes nothing; a flat view scans that one
    prefix, a dated view today's folder and then yesterday's. *)
Theorem build_prefix_normal_form (base_prefix target_date : string) :
  let p := rstrip "/" base_prefix in
  ends_with "/" p = false
  ∧ Media._build_prefix_for_date base_prefix target_date false = p +:+ "/"
  ∧ Media._build_prefix_for_date base_prefix target_date true
    = p +:+ "/" +:+ target_date +:+ "/"
  ∧ (∀ use_date_folders,
       Media._build_prefix_for_date (base_prefix +:+ "/") target_date
         use_date_folders
       = Media._build_prefix_for_date base_prefix target_date use_date_folders
       ∧ ends_with "/"
           (Media._build_prefix_for_date base_prefix target_date use_date_folders)
         = true)
  ∧ (∀ w, Media.prefixes_to_scan w base_prefix false
          = [Media._build_prefix_for_date base_prefix target_date false]
          ∧ Media.prefixes_to_scan w base_prefix true
            = [Media._build_prefix_for_date base_prefix (Media.today_iso w) true;
               Media._build_prefix_for_date base_prefix (Media.yesterday_iso w)
                 true]).
Proof.
  intros p. subst p. split; [apply ends_with_rstrip|].
  split; [done|]. split.
  { unfold Media._build_prefix_for_date. cbv beta iota zeta.
    by rewrite !str_app_assoc. }
  split; [|done].
  intros b. unfold Media._build_prefix_for_date. rewrite (rstrip_sep "/").
  split; [done|]. apply (ends_with_sep "/").
Qed.

(** ** The timestamp of a blob *)






Section BlobTimeFacts.
Context {rt : Runtime}.




End BlobTimeFacts.

(** ** The configuration file *)

Lemma enabled_entries_spec (entries : list (string * Config.MetaNode)) :
  match Config.enabled_entries entries with
  | Ok enabled =>
      Forall (λ entry, ∃ meta, entry.2 = Config.MMap meta) entries
      ∧ (∀ sid meta, (sid, meta) ∈ enabled ↔
           (sid, Config.MMap meta) ∈ entries ∧ Config.is_enabled meta = true)
      ∧ map fst enabled `sublist_of` map fst entries
  | Raise e => e = AttributeError ∧ ∃ sid, (sid, Config.MOther) ∈ entries
  end.
Proof.
  induction entries as [|[sid [meta|]] entries IH]; simpl.
  - split; [constructor|]. split; [|done]. intros sid meta.
    rewrite !elem_of_nil. tauto.
  - destruct (Config.enabled_entries entries) as [enabled|e]; cbn.
    + destruct IH as (Hall & Hin & Hsub). split; [constructor; eauto|].
      destruct (Config.is_enabled meta) eqn:Hen.
      * split; [|by constructor]. intros sid' meta'.
        rewrite !elem_of_cons, Hin. split.
        -- intros [[= -> ->]|[? ?]]; auto.
        -- intros [[[= -> ->]|?] ?]; auto.
      * split; [|by constructor]. intros sid' meta'.
        rewrite elem_of_cons, Hin. split; [tauto|].
        intros [[[= -> ->]|?] ?]; [congruence|auto].
    + destruct IH as (-> & sid' & Hin). split; [done|].
      exists sid'. by right.
  - split; [done|]. exists sid. by left.
Qed.

(** X16. From an existing configuration file whose [sensors] entry is a
    mapping, [load_sensor_config] returns exactly the sensors whose own
    mapping holds a true [enabled] value, in file order, and these are the
    sensors polled; a sensor without [enabled] entry is left out. If some
    entry is not a mapping, the loading raises an [AttributeError]. *)
Theorem load_sensor_config_enabled_only (entries : list (string * Config.MetaNode)) :
  match Config.load_sensor_config
          (Some (Ok (Config.DocMap (Some (Config.SNMap entries))))) with
  | Ok enabled =>
      Forall (λ entry, ∃ meta, entry.2 = Config.MMap meta) entries
      ∧ (∀ sid meta, (sid, meta) ∈ enabled ↔
           (sid, Config.MMap meta) ∈ entries
           ∧ ∃ v, Config.meta_enabled meta = Some v ∧ Config.value_truthy v = true)
      ∧ map fst enabled `sublist_of` map fst entries
      ∧ SENSORS (Config.normalizer_configs enabled) = map fst enabled
  | Raise e => e = AttributeError ∧ ∃ sid, (sid, Config.MOther) ∈ entries
  end.
Proof.
  simpl. pose proof (enabled_entries_spec entries) as H.
  destruct (Config.enabled_entries entries) as [enabled|e]; [|done].
  destruct H as (Hall & Hin & Hsub). split; [done|]. split; [|split; [done|]].
  - intros sid meta. rewrite Hin. unfold Config.is_enabled.
    destruct (Config.meta_enabled meta) as [v|]; split;
      intros [? H]; split; try done; eauto.
    + by destruct H as (v' & [= <-] & ?).
    + by destruct H as (v' & ? & ?).
  - unfold SENSORS, Config.normalizer_configs. rewrite map_map. done.
Qed.

(** ** The backfill *)

Section BackfillFacts.
Context {rt : Runtime}.






End BackfillFacts.

(** ** A record without timestamp *)

Section ClockFacts.
Context {rt : Runtime}.

(** X8. For a record without the timestamp field, the reading of
    [time.time()] is parsed under the configured format: it is taken as
    seconds under "epoch_s", and under "epoch_auto" when not above 1e11,
    but divided by 1000 under "epoch_ms", which dates the point a few
    weeks after the epoch. *)
Theorem missing_timestamp_uses_clock (clk : Clock) (key : string)
    (d : gmap string value) (cfg : option SensorCfg) (p : Point) :
  d !! ts_field_of cfg = None →
  clean_sensor_data clk key (NDict d) cfg = Some p →
  _parse_timestamp (utc_now clk) (VFloat (time_time clk)) (ts_format_of cfg)
  = Ok (time p)
  ∧ (ts_format_of cfg = "epoch_s" →
     fromtimestamp_or_now (utc_now clk) (time_time clk) = Ok (time p))
  ∧ (ts_format_of cfg = "epoch_ms" →
     fromtimestamp_or_now (utc_now clk) (fdiv (time_time clk) (float_lit 1000))
     = Ok (time p))
  ∧ (ts_format_of cfg = "epoch_auto" → fgt (time_time clk) threshold = false →
     fromtimestamp_or_now (utc_now clk) (time_time clk) = Ok (time p)).
Proof.
  intros Hts. unfold clean_sensor_data.
  rewrite clean_sensor_data_body_dict, Hts. simpl default.
  destruct (_parse_timestamp (utc_now clk) (VFloat (time_time clk))
              (ts_format_of cfg)) as [dt|e] eqn:Hdt.
  2: { by repeat match goal with
          | |- match ?r ≫= _ with _ => _ end = _ → _ => destruct r; cbn
          end. }
  repeat match goal with
         | |- match ?r ≫= _ with _ => _ end = _ → _ => destruct r; cbn; [|done]
         end.
  intros [= <-]. simpl. split; [done|].
  unfold _parse_timestamp, epoch_seconds in Hdt. simpl in Hdt.
  repeat split.
  - intros Hfmt. by rewrite Hfmt in Hdt.
  - intros Hfmt. by rewrite Hfmt in Hdt.
  - intros Hfmt Hlow. rewrite Hfmt in Hdt. simpl in Hdt.
    unfold threshold in Hlow. by rewrite Hlow in Hdt.
Qed.

End ClockFacts.

Lemma missing_timestamp_uses_clock_witness :
  time <$> clean_sensor_data clk_a "/flood1/-Ka002" (NDict rec_no_timestamp)
             (Some cfg_ms)
  = Some 1771509325000
  ∧ fromtimestamp_or_now (utc_now clk_a) (fdiv (time_time clk_a) (float_lit 1000))
    = Ok 1771509325000.
Proof.
  assert (clean_sensor_data clk_a "/flood1/-Ka002" (NDict rec_no_timestamp)
            (Some cfg_ms)
          = Some {| measurement := "sensor_reading"; sensor_id := "flood1";
                    dist_cm := 120; bat_volt := float_lit 4; solar_volt := fzero;
                    fb_key := "-Ka002"; time := 1771509325000 |}) as H
    by (vm_compute; reflexivity).
  split; [by rewrite H|].
  refine (proj1 (proj2 (proj2 (missing_timestamp_uses_clock clk_a "/flood1/-Ka002"
    rec_no_timestamp (Some cfg_ms) _ _ H))) _); vm_compute; reflexivity.
Defined.

(** ** Closed instances of the facts above *)

Lemma elem_map_fst_inv (items : list (string * node)) (k : string) :
  k ∈ map fst items → ∃ r, (k, r) ∈ items.
Proof.
  induction items as [|[k0 r0] items IH]; simpl; [by intros ?%elem_of_nil|].
  intros [->|Hin]%elem_of_cons.
  - exists r0. by left.
  - destruct (IH Hin) as [r Hr]. exists r. by right.
Qed.

Lemma world_of_honours_start_at (records : list (string * node)) (sink_up : bool)
    (sink_last : option string) :
  honours_start_at (world_of records sink_up sink_last).
Proof.
  intros sensor k n items. simpl.
  destruct (String.eqb sensor "flood1"); [|done].
  unfold store_page.
  destruct (take n (filter (λ kr, String.leb k kr.1 = true) records))
    as [|item page] eqn:Hpage; [done|].
  intros [= <-] key Hkey. rewrite <- Hpage in Hkey.
  apply elem_map_fst_inv in Hkey as [r Hin].
  eapply elem_of_sublist in Hin; [|apply sublist_take].
  by apply list_elem_of_filter in Hin as [Hle _].
Qed.

Lemma cursor_never_moves_back_witness :
  cursor_le (Some "-Ka001")
    (cursor_of (poll_cycles 2 (world_of page_scenario true None) configs st_Ka001)
       "flood1").
Proof.
  apply (cursor_never_moves_back (world_of page_scenario true None) configs
           st_Ka001 2 "flood1").
  apply world_of_honours_start_at.
Defined.

Lemma process_page_order_independent_witness :
  process_page (world_of page_scenario true None) configs "flood1"
    page_scenario (Some "-Ka001")
  = process_page (world_of page_scenario true None) configs "flood1"
      (rev page_scenario) (Some "-Ka001").
Proof.
  apply process_page_order_independent.
  - apply Permutation_rev.
  - apply (bool_decide_unpack _). vm_compute. exact I.
Defined.

Lemma batch_carries_new_keys_witness :
  map fb_key (page_points (world_of page_scenario true None) configs "flood1"
                page_scenario (Some "-Ka001"))
  `sublist_of` new_keys page_scenario (Some "-Ka001").
Proof.
  refine (proj1 (proj2 (batch_carries_new_keys (world_of page_scenario true None)
    configs "flood1" page_scenario (Some "-Ka001") _ _))).
  - vm_compute. reflexivity.
  - apply Forall_forall. apply (bool_decide_unpack _). vm_compute. exact I.
Defined.

Lemma restart_resumes_at_checkpoint_witness :
  cursors (init_cursors (world_of page_poison false None) (SENSORS configs)
             (restarted (poll_cycles 1 (world_of page_scenario true None) configs
                           (init_cursors (world_of page_scenario true None)
                              (SENSORS configs) (st_fresh None)))))
    !! "flood1"
  = cursors (poll_cycles 1 (world_of page_scenario true None) configs
               (init_cursors (world_of page_scenario true None)
                  (SENSORS configs) (st_fresh None))) !! "flood1".
Proof.
  refine (proj1 (proj2 (restart_resumes_at_checkpoint
    (world_of page_scenario true None) (world_of page_poison false None)
    configs (st_fresh None) 1 _)) "flood1" _).
  - intros c. by exists ().
  - vm_compute. left.
Defined.



Lemma seen_names_never_leave_witness :
  Media.OStr "cam/front/a.jpg"
  ∈ Media.seen "flood1/front"
      (Media.poll_cycle (media_world false false) media_configs
         (Media.poll_cycle (media_world true true) media_configs media_st0)).
Proof.
  apply (seen_names_never_leave (media_world false false) media_configs
           (Media.poll_cycle (media_world true true) media_configs media_st0)
           "flood1/front" "cam/front/a.jpg").
  vm_compute. left.
Defined.







Lemma store_page_sublist (records : list (string * node)) (q : query)
    (items : list (string * node)) :
  store_page records q = SDict items → items `sublist_of` records.
Proof.
  unfold store_page. destruct q as [k n|n].
  - destruct (take n _) as [|item page] eqn:Hpage; [done|]. intros [= <-].
    rewrite <- Hpage. etrans; [apply sublist_take|apply sublist_filter].
  - destruct (drop _ records) as [|item page] eqn:Hpage; [done|]. intros [= <-].
    rewrite <- Hpage. apply sublist_drop.
Qed.

Lemma world_of_well_keyed (records : list (string * node)) (sink_up : bool)
    (sink_last : option string) :
  NoDup (map fst records) →
  Forall (λ k, contains_char "/" k = false) (map fst records) →
  well_keyed (world_of records sink_up sink_last).
Proof.
  intros Hnd Hslash sensor q items. simpl.
  destruct (String.eqb sensor "flood1"); [|done].
  intros [= Hpage]. apply store_page_sublist in Hpage.
  assert (map fst items `sublist_of` map fst records) as Hsub
    by (rewrite !map_as_fmap; by apply fmap_sublist).
  split.
  - by eapply sublist_NoDup.
  - intros k Hk. apply (proj1 (Forall_forall _ _) Hslash).
    by eapply elem_of_sublist.
Qed.

Lemma no_record_delivered_twice_witness :
  NoDup (delivered (Bridge.trace
    (poll_cycles 3 (world_of page_scenario true None) configs st_Ka001))).
Proof.
  apply (no_record_delivered_twice (world_of page_scenario true None) configs
           st_Ka001 3).
  - apply world_of_honours_start_at.
  - apply world_of_well_keyed; apply (bool_decide_unpack _); vm_compute; exact I.
  - apply (bool_decide_unpack _). vm_compute. exact I.
  - reflexivity.
Defined.
